(** * CBU gold rates API: the scrape, parse and cache pipeline of [main.py]

    A shallow embedding of [src/main.py].  Python values are modelled as
    follows.

    - A [str] is its sequence of Unicode code points ([list N]); the
      regular expressions of the module act on code points, so that
      [\d], [re.I] and [str.strip] are the Unicode-aware operations the
      interpreter runs.
    - An [int] is a [Z].
    - An exception is a value of [exn]; code that can raise returns a
      [result].  [int(s)] raises [ValueError] on a string of more than
      4300 digits, the default limit of the interpreter on the
      conversion.
    - [BeautifulSoup(html, "html.parser")] is the boundary of the model:
      [parse_table] is stated over the tree that the parser built.
    - The cache file, the clock and the network are an explicit world. *)

From Stdlib Require Import ZArith NArith List Bool Lia String Ascii.
From Stdlib Require Import Permutation Sorted.
Import ListNotations.

Set Implicit Arguments.

(** ** Python runtime *)

Module Py.

Definition char := N.
Definition str := list char.

(** An ASCII literal of the source, code point by code point. *)
Definition lit (s : string) : str :=
  List.map N_of_ascii (list_ascii_of_string s).

Definition char_eqb (a b : char) : bool := N.eqb a b.

Fixpoint str_eqb (a b : str) : bool :=
  match a, b with
  | [], [] => true
  | x :: a', y :: b' => char_eqb x y && str_eqb a' b'
  | _, _ => false
  end.

(** [a.startswith(p)] *)
Fixpoint startswith (p s : str) : bool :=
  match p, s with
  | [], _ => true
  | x :: p', y :: s' => char_eqb x y && startswith p' s'
  | _ :: _, [] => false
  end.

(** [p in s] on strings: [p] occurs as a substring of [s]. *)
Fixpoint contains (p s : str) : bool :=
  startswith p s ||
  match s with
  | [] => false
  | _ :: s' => contains p s'
  end.

(** [sep.join(parts)] *)
Fixpoint join (sep : str) (parts : list str) : str :=
  match parts with
  | [] => []
  | [p] => p
  | p :: rest => p ++ sep ++ join sep rest
  end.

(** [s.replace(a, b)] for one-character [a] and [b]. *)
Definition replace_char (a b : char) (s : str) : str :=
  List.map (fun c => if char_eqb c a then b else c) s.

(** The code points [c] with [chr(c).isspace()]: what [str.strip()]
    removes. *)
Definition isspace (c : char) : bool :=
  ((9 <=? c) && (c <=? 13) || (28 <=? c) && (c <=? 32)
   || (c =? 133) || (c =? 160) || (c =? 5760)
   || (8192 <=? c) && (c <=? 8202)
   || (c =? 8232) || (c =? 8233) || (c =? 8239) || (c =? 8287)
   || (c =? 12288))%N.

Fixpoint lstrip (s : str) : str :=
  match s with
  | [] => []
  | c :: s' => if isspace c then lstrip s' else s
  end.

Definition rstrip (s : str) : str := rev (lstrip (rev s)).

Definition strip (s : str) : str := rstrip (lstrip s).

(** The zeros of the decimal digit blocks of Unicode 14 (general
    category Nd): every block is ten consecutive code points valued 0
    to 9. *)
Definition decimal_zeros : list char :=
  [48; 1632; 1776; 1984; 2406; 2534; 2662; 2790; 2918; 3046; 3174; 3302;
   3430; 3558; 3664; 3792; 3872; 4160; 4240; 6112; 6160; 6470; 6608; 6784;
   6800; 6992; 7088; 7232; 7248; 42528; 43216; 43264; 43472; 43504; 43600;
   44016; 65296; 66720; 68912; 69734; 69872; 69942; 70096; 70384; 70736;
   70864; 71248; 71360; 71472; 71904; 72016; 72784; 73040; 73120; 92768;
   92864; 93008; 120782; 120792; 120802; 120812; 120822; 123200; 123632;
   125264; 130032]%N.

(** [unicodedata.decimal(chr(c), None)] *)
Definition decimal (c : char) : option Z :=
  match find (fun z => (z <=? c) && (c <? z + 10))%N decimal_zeros with
  | Some z => Some (Z.of_N (c - z))
  | None => None
  end.

(** [chr(c).isdecimal()], which is also what [\d] matches in a [str]
    pattern. *)
Definition isdecimal (c : char) : bool :=
  match decimal c with Some _ => true | None => false end.

(** Exceptions.  The [detail] of an [HTTPException] keeps the value
    interpolated in the f-string of the source. *)
Inductive detail : Type :=
| SourceReturnedStatus (status_code : Z)
| CouldNotFindGoldTable
| FailedToFetchSource (e : exn)
with exn : Type :=
| IndexError
| ValueError
| FileNotFoundError
| CacheFileUnreadable      (* what json.load, data.get, fromisoformat or
                              the comparison of the dates raises *)
| RequestException (msg : str)
| HTTPException (status_code : Z) (d : detail).

Inductive result (A : Type) : Type :=
| Ok (a : A)
| Raise (e : exn).
Arguments Ok {A} a.
Arguments Raise {A} e.

Definition bind {A B} (m : result A) (k : A -> result B) : result B :=
  match m with
  | Ok a => k a
  | Raise e => Raise e
  end.


(** [l[i]] *)
Definition getitem {A} (l : list A) (i : nat) : result A :=
  match nth_error l i with
  | Some a => Ok a
  | None => Raise IndexError
  end.

Fixpoint int_digits (acc : Z) (s : str) : result Z :=
  match s with
  | [] => Ok acc
  | c :: s' =>
      match decimal c with
      | Some d => int_digits (10 * acc + d) s'
      | None => Raise ValueError
      end
  end.

(** The default of [sys.get_int_max_str_digits()]. *)
Definition int_max_str_digits : Z := 4300.

(** [int(s)] for the strings the module passes, which are runs of
    decimal digits: a run of more digits than the limit is a
    [ValueError]; anything that is no run of digits (the empty string
    first) is a [ValueError] here. *)
Definition int (s : str) : result Z :=
  match s with
  | [] => Raise ValueError
  | _ =>
      if (int_max_str_digits <? Z.of_nat (List.length s))%Z
      then Raise ValueError
      else int_digits 0 s
  end.

(** [sorted(l, key=key)]: the stable sort; an element goes before the
  first element of the sorted tail whose key is not smaller. *)
Section Sorted.
Variable A : Type.
Variable key : A -> Z.

Fixpoint insert (x : A) (l : list A) : list A :=
  match l with
  | [] => [x]
  | y :: l' => if (key x <=? key y)%Z then x :: l else y :: insert x l'
  end.

Fixpoint sorted (l : list A) : list A :=
  match l with
  | [] => []
  | x :: l' => insert x (sorted l')
  end.
End Sorted.

End Py.

Module PyNotations.
Notation "x <- m ;; k" := (Py.bind m (fun x => k))
  (at level 61, m at next level, right associativity).
End PyNotations.

(** ** The regular expressions of [main.py] *)

Module Re.
Import Py.

(** [re.findall(r"\d+", s)]: the maximal runs of decimal digits, in
    order.  [run] is the run being read. *)
Definition flush (run : str) : list str :=
  match run with
  | [] => []
  | _ => [run]
  end.

Fixpoint findall_digits_from (run : str) (s : str) : list str :=
  match s with
  | [] => flush run
  | c :: s' =>
      if isdecimal c then findall_digits_from (run ++ [c]) s'
      else flush run ++ findall_digits_from [] s'
  end.

Definition findall_digits (s : str) : list str := findall_digits_from [] s.

(** [re.search(r"(\d+)", s)]: [group(1)] of the leftmost match, which
    is greedy. *)
Fixpoint span_digits (s : str) : str :=
  match s with
  | [] => []
  | c :: s' => if isdecimal c then c :: span_digits s' else []
  end.

Fixpoint search_digits (s : str) : option str :=
  match s with
  | [] => None
  | c :: s' => if isdecimal c then Some (span_digits s) else search_digits s'
  end.

(** [re.compile(r"(\d{1,2}\.\d{1,2}\.\d{4})")] *)
Fixpoint take_digits (n : nat) (s : str) : option (str * str) :=
  match n with
  | O => Some ([], s)
  | S n' =>
      match s with
      | [] => None
      | c :: s' =>
          if isdecimal c then
            match take_digits n' s' with
            | Some (d, r) => Some (c :: d, r)
            | None => None
            end
          else None
      end
  end.

Definition dot : char := 46%N.

Definition take_dot (s : str) : option str :=
  match s with
  | c :: s' => if char_eqb c dot then Some s' else None
  | [] => None
  end.

Definition match_date_with (n1 n2 : nat) (s : str) : option str :=
  match take_digits n1 s with
  | Some (d, r1) =>
      match take_dot r1 with
      | Some r2 =>
          match take_digits n2 r2 with
          | Some (m, r3) =>
              match take_dot r3 with
              | Some r4 =>
                  match take_digits 4 r4 with
                  | Some (y, _) => Some (d ++ [dot] ++ m ++ [dot] ++ y)
                  | None => None
                  end
              | None => None
              end
          | None => None
          end
      | None => None
      end
  | None => None
  end.

(** The greedy quantifiers try two digits before one. *)
Definition match_date (s : str) : option str :=
  match match_date_with 2 2 s with
  | Some m => Some m
  | None =>
      match match_date_with 2 1 s with
      | Some m => Some m
      | None =>
          match match_date_with 1 2 s with
          | Some m => Some m
          | None => match_date_with 1 1 s
          end
      end
  end.

(** [date_pattern.search(s)], giving [m.group(1)]. *)
Fixpoint search_date (s : str) : option str :=
  match match_date s with
  | Some m => Some m
  | None =>
      match s with
      | [] => None
      | _ :: s' => search_date s'
      end
  end.

(** A literal of a pattern compiled with [re.I], for the letters the
    denylist is written with: the two cases of the letter, and for [i]
    and [s] the code points U+0130, U+0131 and U+017F that the engine
    folds onto them. *)
Definition literal_ignorecase (p c : char) : bool :=
  (char_eqb c p
   || (97 <=? p) && (p <=? 122) && (c =? p - 32)
   || (p =? 105) && ((c =? 304) || (c =? 305))
   || (p =? 115) && (c =? 383))%N.

Fixpoint startswith_ignorecase (p s : str) : bool :=
  match p, s with
  | [], _ => true
  | x :: p', y :: s' => literal_ignorecase x y && startswith_ignorecase p' s'
  | _ :: _, [] => false
  end.

(** [og'ir|ogʻir|ogir|sotish|narx]; the second alternative has
    U+02BB. *)
Definition denylist : list str :=
  [lit "og'ir"; lit "og" ++ [699%N] ++ lit "ir"; lit "ogir";
   lit "sotish"; lit "narx"].

(** [re.search(r"og'ir|ogʻir|ogir|sotish|narx", s, flags=re.I)] as a
    truth value. *)
Fixpoint search_denylist (s : str) : bool :=
  existsb (fun alt => startswith_ignorecase alt s) denylist ||
  match s with
  | [] => false
  | _ :: s' => search_denylist s'
  end.

End Re.

(** ** The tree of BeautifulSoup *)

Module Bs4.
Import Py.

(** What [html.parser] builds.  A [Comment] stands for every string
    class that [get_text] leaves out (comments, declarations, doctypes,
    processing instructions); [class_] is the [class] attribute, split
    on whitespace as the parser stores it, [None] when the tag has no
    such attribute.  Tag names are lower case: the parser folds them. *)
#[warnings="-register-all"] Inductive PageElement : Type :=
| NavigableString (s : str)
| Comment (s : str)
| Tag (name : str) (class_ : option (list str)) (contents : list PageElement).

Definition is_tag (name : str) (el : PageElement) : bool :=
  match el with
  | Tag n _ _ => str_eqb n name
  | _ => false
  end.

Definition tag_class (el : PageElement) : option (list str) :=
  match el with
  | Tag _ c _ => c
  | _ => None
  end.

(** An element with what the selectors ask about its position: whether
    one of its ancestors is a [tbody], and whether an [h1] comes before
    it among its siblings. *)
Record Located : Type :=
  { in_tbody : bool; after_h1 : bool; element : PageElement }.

(** [el.descendants], in document order.  [inside] tells whether [el]
    itself is below a [tbody]. *)
Fixpoint located_descendants (inside : bool) (el : PageElement)
  : list Located :=
  match el with
  | Tag name _ contents =>
      let inside' := inside || str_eqb name (lit "tbody") in
      (fix siblings (seen_h1 : bool) (l : list PageElement) : list Located :=
         match l with
         | [] => []
         | c :: l' =>
             {| in_tbody := inside'; after_h1 := seen_h1; element := c |}
               :: located_descendants inside' c
               ++ siblings (seen_h1 || is_tag (lit "h1") c) l'
         end) false contents
  | _ => []
  end.

Definition descendants (el : PageElement) : list PageElement :=
  List.map element (located_descendants false el).

(** [el.find_all(name)] *)
Definition find_all (name : str) (el : PageElement) : list PageElement :=
  filter (is_tag name) (descendants el).

(** [el.find_all(text=True)]: every string below [el], of any class. *)
Definition find_all_text (el : PageElement) : list str :=
  flat_map (fun d => match d with
                     | NavigableString s => [s]
                     | Comment s => [s]
                     | Tag _ _ _ => []
                     end) (descendants el).

Definition is_empty {A} (l : list A) : bool :=
  match l with [] => true | _ => false end.

(** [el.get_text(sep, strip=True)]: the strings below [el] that are
    text, each stripped, the empty ones dropped, joined by [sep]. *)
Definition get_text (sep : str) (el : PageElement) : str :=
  join sep
    (flat_map (fun d => match d with
                        | NavigableString s =>
                            let s' := strip s in
                            if is_empty s' then [] else [s']
                        | _ => []
                        end) (descendants el)).

(** The attribute filter of [find]: a function given for [class_] is
    tried on every class of the tag, then on the whole attribute; a tag
    without the attribute hands it [None]. *)
Definition matches_class (f : option str -> bool) (class_ : option (list str))
  : bool :=
  match class_ with
  | None => f None
  | Some tokens =>
      existsb (fun t => f (Some t)) tokens || f (Some (join (lit " ") tokens))
  end.

(** [soup.find(name, class_=f)] *)
Definition find_ (name : str) (f : option str -> bool) (soup : PageElement)
  : option Located :=
  find (fun d => is_tag name (element d) && matches_class f (tag_class (element d)))
       (located_descendants false soup).

(** The class selector [.cls] of a CSS selector: [cls] is one of the
    classes of the tag. *)
Definition has_class (cls : str) (el : PageElement) : bool :=
  match tag_class el with
  | Some tokens => existsb (str_eqb cls) tokens
  | None => false
  end.

(** [soup.select_one("h1 ~ table.table-bordered")] *)
Definition select_one_h1_sibling_table (soup : PageElement) : option Located :=
  find (fun d => is_tag (lit "table") (element d)
                 && has_class (lit "table-bordered") (element d)
                 && after_h1 d)
       (located_descendants false soup).

(** [table.select("tbody tr")]: the [tr] below [table] that have a
    [tbody] among their ancestors, wherever it is in the document. *)
Definition select_tbody_tr (table : Located) : list PageElement :=
  List.map element
    (filter (fun d => is_tag (lit "tr") (element d) && in_tbody d)
            (located_descendants (in_tbody table) (element table))).

End Bs4.

(** ** [main.py]: the extractor *)

Module Main.
Import Py PyNotations Bs4.

Record PriceEntry : Type :=
  { weight_g : Z; price_uzs : Z; price_str : str }.

Definition nbsp : char := 160%N.
Definition space : char := 32%N.

Definition normalize_digits (s : str) : result Z :=
  let digits := Re.findall_digits (replace_char nbsp space s) in
  if is_empty digits then Ok 0%Z else int (join [] digits).

(** [lambda c: c and "table-bordered" in c] *)
Definition class_lambda (c : option str) : bool :=
  match c with
  | None => false
  | Some s => negb (is_empty s) && contains (lit "table-bordered") s
  end.

(** The table of the page: the first selector, [or] the second. *)
Definition find_table (soup : PageElement) : option Located :=
  match select_one_h1_sibling_table soup with
  | Some t => Some t
  | None => find_ (lit "table") class_lambda soup
  end.

(** The loop over [table.find_all(text=True)], which stops at the
    first match. *)
Fixpoint first_date (els : list str) : option str :=
  match els with
  | [] => None
  | el :: rest =>
      match Re.search_date el with
      | Some m => Some m
      | None => first_date rest
      end
  end.

(** The loop over the rows; [rows] is the list built so far, and each
    [continue] of the source goes on with the rest. *)
Fixpoint parse_rows (trs : list PageElement) (rows : list PriceEntry)
  : result (list PriceEntry) :=
  match trs with
  | [] => Ok rows
  | tr :: rest =>
      let tds := find_all (lit "td") tr in
      if is_empty tds then parse_rows rest rows
      else
        td0 <- getitem tds 0 ;;
        let first_text := get_text (lit " ") td0 in
        if Re.search_denylist first_text then parse_rows rest rows
        else
          match Re.search_digits first_text with
          | None => parse_rows rest rows
          | Some group1 =>
              w <- int group1 ;;
              price_text <-
                (if (1 <? List.length tds)%nat
                 then td1 <- getitem tds 1 ;; Ok (get_text (lit " ") td1)
                 else Ok []) ;;
              p <- normalize_digits price_text ;;
              parse_rows rest
                (rows ++ [{| weight_g := w; price_uzs := p;
                             price_str := price_text |}])
          end
  end.

(** [parse_table], from the tree on.  The pair it returns is
    [(None, None)] when the page has no table. *)
Definition parse_table (soup : PageElement)
  : result (option str * option (list PriceEntry)) :=
  match find_table soup with
  | None => Ok (None, None)
  | Some table =>
      let last_updated := first_date (find_all_text (element table)) in
      rows <- parse_rows (select_tbody_tr table) [] ;;
      Ok (last_updated, Some (sorted weight_g rows))
  end.

(** ** [main.py]: the cache file, the fetch and the handler *)

(** An aware [datetime] is an instant, counted in microseconds; a
[timedelta] is a number of microseconds.  [isoformat] and
[fromisoformat] are inverse of each other on the dates the module
writes, so the file keeps the instant itself. *)
Definition datetime := Z.
Definition timedelta := Z.

Definition hours (h : Z) : timedelta := (h * 3600 * 1000000)%Z.

Definition CACHE_TTL : timedelta := hours 24.

(** The dictionary that [fetch_and_parse] returns. *)
Record Snapshot : Type :=
  { source : str;
    last_updated : option str;
    retrieved_at : datetime;
    prices : list PriceEntry }.

(** [{**result, "expires_at": ...}]: what [save_cache] writes and
[load_cache] reads back. *)
Record CacheData : Type :=
  { data_result : Snapshot; data_expires_at : datetime }.

(** What [CACHE_FILE] holds.  [Unreadable] is any content on which the
[try] block of [load_cache] raises: text that is not JSON, a JSON value
that is not an object, an object without a well-formed aware
[expires_at]. *)
Inductive FileContent : Type :=
| Unreadable
| Json (data : CacheData).

(** The calls that touch the file or the network, as they happen. *)
Inductive Event : Type :=
| EvClear
| EvLoad
| EvRequest
| EvSave.

(** The world of a request: the cache file ([None] when it does not
exist) and the calls made so far. *)
Record World : Type :=
  { cache_file : option FileContent; trace : list Event }.

Definition log (ev : Event) (w : World) : World :=
  {| cache_file := cache_file w; trace := trace w ++ [ev] |}.

Definition write_file (f : option FileContent) (w : World) : World :=
  {| cache_file := f; trace := trace w |}.

(** Code that acts on the world and may raise. *)
Definition M (A : Type) : Type := World -> result A * World.

Definition ret {A} (a : A) : M A := fun w => (Ok a, w).

Definition raise {A} (e : exn) : M A := fun w => (Raise e, w).

Definition lift {A} (r : result A) : M A := fun w => (r, w).

Definition mbind {A B} (m : M A) (k : A -> M B) : M B :=
  fun w =>
    match m w with
    | (Ok a, w') => k a w'
    | (Raise e, w') => (Raise e, w')
    end.

(** [try: m  except Exception as e: h e] *)
Definition try_except_m {A} (m : M A) (h : exn -> M A) : M A :=
  fun w =>
    match m w with
    | (Ok a, w') => (Ok a, w')
    | (Raise e, w') => h e w'
    end.

Notation "x <~ m ;; k" := (mbind m (fun x => k))
  (at level 61, m at next level, right associativity).

(** [os.path.exists(CACHE_FILE)] *)
Definition os_path_exists : M bool :=
  fun w => (Ok (match cache_file w with Some _ => true | None => false end), w).

(** [os.remove(CACHE_FILE)] *)
Definition os_remove : M unit :=
  fun w =>
    match cache_file w with
    | Some _ => (Ok tt, write_file None w)
    | None => (Raise FileNotFoundError, w)
    end.

(** [open(CACHE_FILE, "r")], [json.load], [data.get("expires_at")] and
[datetime.fromisoformat]: the object of the file with its date. *)
Definition read_cache_file : M CacheData :=
  fun w =>
    match cache_file w with
    | None => (Raise FileNotFoundError, w)
    | Some Unreadable => (Raise CacheFileUnreadable, w)
    | Some (Json data) => (Ok data, w)
    end.

(** [load_cache]; [now] is what [datetime.now(UZB_TZ)] reads. *)
Definition load_cache (now : datetime) : M (option CacheData) :=
  fun w0 =>
    (exists_ <~ os_path_exists ;;
     if negb exists_ then ret None
     else
       try_except_m
         (data <~ read_cache_file ;;
          let expires := data_expires_at data in
          if (now <? expires)%Z then ret (Some data)
          else ret None)
         (fun _ => ret None)) (log EvLoad w0).

(** [save_cache]: the file is overwritten. *)
Definition save_cache (now : datetime) (result : Snapshot) : M datetime :=
  fun w0 =>
    let expires := (now + CACHE_TTL)%Z in
    let data := {| data_result := result; data_expires_at := expires |} in
    (Ok expires, write_file (Some (Json data)) (log EvSave w0)).

Definition clear_cache : M unit :=
  fun w0 =>
    (exists_ <~ os_path_exists ;;
     if exists_ then os_remove else ret tt) (log EvClear w0).

(** The response of the source: its status and the tree of its text. *)
Record Response : Type :=
  { status_code : Z; text : PageElement }.

(** [requests.get(CBU_URL, ...)]: [outcome] is what the network does to
this request, a response or an exception of [requests]. *)
Definition requests_get (outcome : result Response) : M Response :=
  fun w => (outcome, log EvRequest w).

(** [x or None] *)
Definition or_None (x : option str) : option str :=
  match x with
  | Some [] => None
  | _ => x
  end.

(** The default of [os.getenv("CBU_URL", ...)]. *)
Definition CBU_URL_default : str :=
  lit "https://cbu.uz/uz/banknotes-coins/gold-bars/prices/".

Section Service.

(** [CBU_URL], read from the environment when the module is loaded. *)
Variable CBU_URL : str.

Definition fetch_and_parse (outcome : result Response) (now : datetime)
  : M Snapshot :=
  resp <~ requests_get outcome ;;
  if negb (status_code resp =? 200)%Z then
    raise (HTTPException 502 (SourceReturnedStatus (status_code resp)))
  else
    parsed <~ lift (parse_table (text resp)) ;;
    match snd parsed with
    | None => raise (HTTPException 500 CouldNotFindGoldTable)
    | Some rows =>
        ret {| source := CBU_URL;
               last_updated := or_None (fst parsed);
               retrieved_at := now;
               prices := rows |}
    end.

Inductive CacheStatus : Type :=
| hit
| stale
| stored.

(** The [cache] object of a response. *)
Record CacheInfo : Type :=
  { status : CacheStatus; expires_at : datetime }.

(** The content of a [JSONResponse]: the snapshot, the [expires_at] key
that cached data bring along, the [warning] with the exception it
quotes, and the [cache] object. *)
Record JSONResponse : Type :=
  { content : Snapshot;
    content_expires_at : option datetime;
    warning : option exn;
    cache : CacheInfo }.

Definition cached_response (st : CacheStatus) (warn : option exn)
  (cached_data : CacheData) : JSONResponse :=
  {| content := data_result cached_data;
     content_expires_at := Some (data_expires_at cached_data);
     warning := warn;
     cache := {| status := st; expires_at := data_expires_at cached_data |} |}.

Definition stored_response (result : Snapshot) (expires : datetime)
  : JSONResponse :=
  {| content := result;
     content_expires_at := None;
     warning := None;
     cache := {| status := stored; expires_at := expires |} |}.

(** What the rest of the world does to one request: the clock at each of
its readings, the outcome of its HTTP request, and the writes of other
requests to the cache file while this one holds no lock. *)
Record Env : Type :=
  { now_load : datetime;
    outcome : result Response;
    now_fetch : datetime;
    others : option FileContent -> option FileContent;
    now_after : datetime }.

(** Between two [with cache_lock] blocks. *)
Definition unlocked (env : Env) : M unit :=
  fun w => (Ok tt, write_file (others env (cache_file w)) w).

Definition isinstance_HTTPException (e : exn) : bool :=
  match e with
  | HTTPException _ _ => true
  | _ => false
  end.

(** The first [with cache_lock] block, up to the test of
[cached_data]. *)
Definition check_cache (force : bool) (now : datetime) : M (option CacheData) :=
  _ <~ (if force then clear_cache else ret tt) ;;
  load_cache now.

(** The [except] block: the second [with cache_lock] block and the two
[raise]. *)
Definition fallback (e : exn) (now : datetime) : M JSONResponse :=
  cached_data <~ load_cache now ;;
  match cached_data with
  | Some data => ret (cached_response stale (Some e) data)
  | None =>
      if isinstance_HTTPException e then raise e
      else raise (HTTPException 502 (FailedToFetchSource e))
  end.

(** The last [with cache_lock] block and the [return]. *)
Definition store (result : Snapshot) (now : datetime) : M JSONResponse :=
  expires <~ save_cache now result ;;
  ret (stored_response result expires).

Definition get_gold_prices (force : bool) (env : Env) : M JSONResponse :=
  cached_data <~ check_cache force (now_load env) ;;
  match cached_data with
  | Some data => ret (cached_response hit None data)
  | None =>
      fun w =>
        match fetch_and_parse (outcome env) (now_fetch env) w with
        | (Raise e, w') =>
            (_ <~ unlocked env ;; fallback e (now_after env)) w'
        | (Ok result, w') =>
            (_ <~ unlocked env ;; store result (now_after env)) w'
        end
  end.

(** [cache_status]: the [status] and [expires_at] of the report (the
remaining age, a floating-point number of seconds, is left out). *)
Inductive Report : Type :=
| missing
| error (e : exn)
| expired (expires : datetime)
| valid (expires : datetime).

Definition cache_status (now : datetime) : M Report :=
  exists_ <~ os_path_exists ;;
  if negb exists_ then ret missing
  else
    try_except_m
      (data <~ read_cache_file ;;
       let expires := data_expires_at data in
       if (now >=? expires)%Z then ret (expired expires)
       else ret (valid expires))
      (fun e => ret (error e)).

(** *** Concurrent requests

The handler runs on a pool of threads.  A request is at one of the
points below; the points marked as holding are inside a
[with cache_lock] block. *)
Inductive Pc : Type :=
| Entry (force : bool)          (* before the first block *)
| Checking (force : bool)       (* holding: the first block *)
| Fetching                      (* lock released; [fetch_and_parse] to run *)
| Failed (e : exn)              (* in [except], before its block *)
| FallingBack (e : exn)         (* holding: the block of [except] *)
| Fetched (result : Snapshot)   (* before the last block *)
| Saving (result : Snapshot)    (* holding: the last block *)
| Done (r : result JSONResponse).

Definition holding (pc : Pc) : bool :=
  match pc with
  | Checking _ | FallingBack _ | Saving _ => true
  | _ => false
  end.

(** From the moment the first block found no usable cache to the
response: the check-then-fetch-then-save section of a request. *)
Definition in_section (pc : Pc) : bool :=
  match pc with
  | Fetching | Failed _ | FallingBack _ | Fetched _ | Saving _ => true
  | _ => false
  end.

(** The server: who holds the lock, the world, and where each
request is. *)
Record Server : Type :=
  { cache_lock : option nat; shared : World; pcs : nat -> Pc }.

Definition update (f : nat -> Pc) (i : nat) (pc : Pc) : nat -> Pc :=
  fun j => if Nat.eqb j i then pc else f j.

(** Entering a [with cache_lock] block. *)
Definition acquire (pc : Pc) : option Pc :=
  match pc with
  | Entry force => Some (Checking force)
  | Failed e => Some (FallingBack e)
  | Fetched result => Some (Saving result)
  | _ => None
  end.

(** The code of a request from one point to the next; a block runs to
its end, where the lock is released.  [now] and [out] are the clock and
the network as the step meets them. *)
Definition advance (pc : Pc) (now : datetime) (out : result Response)
  : option (M Pc) :=
  match pc with
  | Checking force =>
      Some (try_except_m
              (cached_data <~ check_cache force now ;;
               match cached_data with
               | Some data => ret (Done (Ok (cached_response hit None data)))
               | None => ret Fetching
               end)
              (fun e => ret (Done (Raise e))))
  | Fetching =>
      Some (try_except_m
              (result <~ fetch_and_parse out now ;; ret (Fetched result))
              (fun e => ret (Failed e)))
  | FallingBack e =>
      Some (try_except_m
              (r <~ fallback e now ;; ret (Done (Ok r)))
              (fun e' => ret (Done (Raise e'))))
  | Saving result =>
      Some (try_except_m
              (r <~ store result now ;; ret (Done (Ok r)))
              (fun e' => ret (Done (Raise e'))))
  | _ => None
  end.

(** One step of request [i]: it takes the lock when it is free and the
request waits for it, or runs its code up to the next point. *)
Definition step (i : nat) (now : datetime) (out : result Response) (s : Server)
  : option Server :=
  match acquire (pcs s i) with
  | Some pc' =>
      match cache_lock s with
      | None =>
          Some {| cache_lock := Some i; shared := shared s;
                  pcs := update (pcs s) i pc' |}
      | Some _ => None
      end
  | None =>
      match advance (pcs s i) now out with
      | Some m =>
          match m (shared s) with
          | (Ok pc', w') =>
              Some {| cache_lock := if holding (pcs s i) then None else cache_lock s;
                      shared := w';
                      pcs := update (pcs s) i pc' |}
          | (Raise _, _) => None
          end
      | None => None
      end
  end.

(** A schedule: which request moves, with the clock and the network it
meets. *)
Record Move : Type :=
  { who : nat; clock : datetime; network : result Response }.

Fixpoint run (schedule : list Move) (s : Server) : option Server :=
  match schedule with
  | [] => Some s
  | mv :: rest =>
      match step (who mv) (clock mv) (network mv) s with
      | Some s' => run rest s'
      | None => None
      end
  end.

(** The server before any request moved. *)
Definition start (forces : nat -> bool) (file : option FileContent) : Server :=
  {| cache_lock := None;
     shared := {| cache_file := file; trace := [] |};
     pcs := fun i => Entry (forces i) |}.

Definition count_requests (w : World) : nat :=
  List.length (filter (fun ev => match ev with EvRequest => true | _ => false end)
                      (trace w)).

End Service.

End Main.

Import Py PyNotations Bs4 Main.

(** ** What the specification says, in its own words *)

(** The integer formed by concatenating all the digits of a text, in
order; 0 when the text has no digit. *)
Definition digit_value (c : char) : Z :=
  match decimal c with Some d => d | None => 0%Z end.

Definition concatenated_digits (s : str) : Z :=
  fold_left (fun acc c => (10 * acc + digit_value c)%Z) (filter isdecimal s) 0%Z.

(** The texts of the cells of a row. *)
Definition cells (tr : PageElement) : list str :=
  List.map (get_text (lit " ")) (find_all (lit "td") tr).

(** The raw price text of a row: the text of its second cell, empty
when the row has one cell. *)
Definition raw_price_text (tr : PageElement) : str :=
  match cells tr with
  | _ :: price :: _ => price
  | _ => []
  end.

(** Steps 3 to 5 of the extractor on one body row: the entry of the
row, when it is a data row. *)
Definition entry_of_row (tr : PageElement) : option PriceEntry :=
  match cells tr with
  | [] => None
  | first_text :: _ =>
      if Re.search_denylist first_text then None
      else
        match Re.search_digits first_text with
        | None => None
        | Some run =>
            Some {| weight_g := concatenated_digits run;
                    price_uzs := concatenated_digits (raw_price_text tr);
                    price_str := raw_price_text tr |}
        end
  end.

(** The entries of the body rows of a table, in the order of the
page. *)
Definition source_rows (table : Located) : list PriceEntry :=
  flat_map (fun tr => match entry_of_row tr with
                      | Some e => [e]
                      | None => []
                      end) (select_tbody_tr table).

Definition le_weight (a b : PriceEntry) : Prop := (weight_g a <= weight_g b)%Z.

Definition has_weight (w : Z) (e : PriceEntry) : bool := (weight_g e =? w)%Z.

(** ** Sample pages *)

Definition cell (s : string) : PageElement :=
  Tag (lit "td") None [NavigableString (lit s)].

Definition row (a b : string) : PageElement :=
  Tag (lit "tr") None [cell a; cell b].

(** A document whose only element is the table, with the given body
rows. *)
Definition page (rows : list PageElement) : PageElement :=
  Tag (lit "[document]") None
    [Tag (lit "table") (Some [lit "table"; lit "table-bordered"])
       [Tag (lit "tbody") None rows]].

(** The same below a heading, where the first selector finds it. *)
Definition bordered_table (rows : list PageElement) : PageElement :=
  Tag (lit "table") (Some [lit "table"; lit "table-bordered"])
    [Tag (lit "tbody") None rows].

Definition page_with_heading (rows : list PageElement) : PageElement :=
  Tag (lit "[document]") None
    [Tag (lit "h1") None [NavigableString (lit "Oltin")];
     bordered_table rows].

(** Scenario A of the specification. *)
Definition header_row : PageElement := row "Og'irligi" "Narxi".
Definition data_row : PageElement := row "5 gramm" "3 250 000".
Definition scenario_A_page : PageElement :=
  page_with_heading [data_row; header_row].

Definition entry_5g : PriceEntry :=
  {| weight_g := 5; price_uzs := 3250000; price_str := lit "3 250 000" |}.

(** A row whose weight cell reads zero. *)
Definition zero_weight_page : PageElement := page [row "0 gramm" "100"].

Definition entry_0g : PriceEntry :=
  {| weight_g := 0; price_uzs := 100; price_str := lit "100" |}.


(** ** Sample worlds *)

(** The status of the response of a request, when it has one. *)
Definition response_status (r : result JSONResponse) : option CacheStatus :=
  match r with
  | Ok resp => Some (status (cache resp))
  | Raise _ => None
  end.

Definition snapshot_5g : Snapshot :=
  {| source := CBU_URL_default;
     last_updated := Some (lit "01.02.2025");
     retrieved_at := 0%Z;
     prices := [entry_5g] |}.

(** A cache file written at instant 0, which expires at [CACHE_TTL]. *)
Definition cached_5g : CacheData :=
  {| data_result := snapshot_5g; data_expires_at := CACHE_TTL |}.

Definition world_with (file : option FileContent) : World :=
  {| cache_file := file; trace := [] |}.

(** A request that meets a timeout of the source, one second after the
cache expired, while no other request runs. *)
Definition timeout : exn := RequestException (lit "Read timed out.").

Definition timeout_env : Env :=
  {| now_load := (CACHE_TTL + 1000000)%Z;
     outcome := Raise timeout;
     now_fetch := (CACHE_TTL + 1000000)%Z;
     others := fun file => file;
     now_after := (CACHE_TTL + 9000000)%Z |}.

(** The same request, alone on the server, when the clock is set back by
ten seconds during the fetch: it reads one second after the expiry in
the first block, and nine seconds before it in the [except] block. *)
Definition clock_back_env : Env :=
  {| now_load := (CACHE_TTL + 1000000)%Z;
     outcome := Raise timeout;
     now_fetch := (CACHE_TTL + 1000000)%Z;
     others := fun file => file;
     now_after := (CACHE_TTL - 9000000)%Z |}.

(** A request whose fetch succeeds on the page of scenario A. *)
Definition success_env (now : datetime) : Env :=
  {| now_load := now;
     outcome := Ok {| status_code := 200; text := scenario_A_page |};
     now_fetch := now;
     others := fun file => file;
     now_after := now |}.

(** Two requests without [force], on a server that has no cache file;
the source answers with the page of scenario A. *)
Definition page_response : result Response :=
  Ok {| status_code := 200; text := scenario_A_page |}.

Definition move (i : nat) (now : datetime) : Move :=
  {| who := i; clock := now; network := page_response |}.

(** Each request takes the lock, finds no cache and releases the
lock. *)
Definition both_miss : list Move :=
  [move 0 10%Z; move 0 10%Z; move 1 11%Z; move 1 11%Z].

(** Then each fetches, and each saves in its turn. *)
Definition both_fetch_and_save : list Move :=
  both_miss
  ++ [move 0 20%Z; move 1 21%Z;
      move 0 30%Z; move 0 30%Z; move 1 31%Z; move 1 31%Z].

Definition no_force (i : nat) : bool := false.

(** The lock is held by the request that is inside a block, and by no
other. *)
Definition lock_invariant (s : Server) : Prop :=
  forall i, holding (pcs s i) = true <-> cache_lock s = Some i.

(** The usable cache of a file at an instant: the object of the file,
when the file is there, can be read, and has not expired. *)
Definition usable (now : datetime) (file : option FileContent)
  : option CacheData :=
  match file with
  | Some (Json data) =>
      if (now <? data_expires_at data)%Z then Some data else None
  | _ => None
  end.

(** The hard error that the handler raises for an exception [e] of the
fetch. *)
Definition hard_error (e : exn) : exn :=
  if isinstance_HTTPException e then e
  else HTTPException 502 (FailedToFetchSource e).

(** A table whose first string is a comment with a date, before the
caption that shows another date. *)
Definition dated_page : PageElement :=
  Tag (lit "[document]") None
    [Tag (lit "table") (Some [lit "table-bordered"])
       [Comment (lit " generated 1.1.2020 ");
        Tag (lit "caption") None [NavigableString (lit "Sana: 31.12.2025 yil")];
        Tag (lit "tbody") None [data_row]]].

(** The shape [D.M.YYYY] of a date: one or two digits, a dot, one or two
digits, a dot, four digits. *)
Definition date_shaped (m : str) : Prop :=
  exists d mo y,
    m = d ++ [Re.dot] ++ mo ++ [Re.dot] ++ y
    /\ (1 <= List.length d <= 2)%nat
    /\ (1 <= List.length mo <= 2)%nat
    /\ List.length y = 4%nat
    /\ Forall (fun c => isdecimal c = true) (d ++ mo ++ y).

(** [m] occurs in [s]. *)
Definition occurs_in (m s : str) : Prop :=
  exists pre post, s = pre ++ m ++ post.

(** The snapshot of a table, for the examples: only its prices
matter. *)
Definition sorted_snapshot (table : Located) : Snapshot :=
  {| source := CBU_URL_default;
     last_updated := None;
     retrieved_at := 0%Z;
     prices := sorted weight_g (source_rows table) |}.

(** A run of digits that [int] refuses. *)
Definition too_long (run : str) : bool :=
  (int_max_str_digits <? Z.of_nat (List.length run))%Z.

(** When the loop over the rows raises on a row: the row is a data row,
and the first run of digits of its first cell, or the digits of its
price text taken together, are more than [int] accepts. *)
Definition row_raises (tr : PageElement) : bool :=
  match cells tr with
  | [] => false
  | first_text :: _ =>
      if Re.search_denylist first_text then false
      else
        match Re.search_digits first_text with
        | None => false
        | Some run =>
            too_long run || too_long (filter isdecimal (raw_price_text tr))
        end
  end.


Definition long_run : str := repeat 49%N 4301.


(** [str.upper] on the letters a to z. *)
Definition ascii_upper (c : char) : char :=
  if ((97 <=? c) && (c <=? 122))%N then (c - 32)%N else c.

(** When the loop over the rows skips a row: the row has no cell, or
the denylist matches its first cell, or its first cell has no digit. *)
Definition skipped (tr : PageElement) : Prop :=
  match cells tr with
  | [] => True
  | first_text :: _ =>
      Re.search_denylist first_text = true
      \/ filter isdecimal first_text = []
  end.

(** ** Decimal digits and [int] *)

Lemma decimal_range (c : char) (d : Z) :
  decimal c = Some d -> (0 <= d < 10)%Z.
Proof.
  unfold decimal.
  match goal with
  | |- context [find ?f ?l] => destruct (find f l) as [z|] eqn:F
  end; [|discriminate].
  intros [= <-].
  apply find_some in F as [_ F].
  apply andb_prop in F as [F1 F2].
  apply N.leb_le in F1. apply N.ltb_lt in F2. lia.
Qed.

Lemma digit_value_nonneg (c : char) : (0 <= digit_value c)%Z.
Proof.
  unfold digit_value.
  destruct (decimal c) eqn:D; [apply decimal_range in D|]; lia.
Qed.

Lemma isdecimal_decimal (c : char) :
  isdecimal c = true -> decimal c = Some (digit_value c).
Proof.
  unfold isdecimal, digit_value. now destruct (decimal c).
Qed.

Lemma filter_all_decimal (s : str) :
  Forall (fun c => isdecimal c = true) s -> filter isdecimal s = s.
Proof.
  induction 1 as [|c s Hc _ IH]; simpl; [reflexivity|].
  now rewrite Hc, IH.
Qed.

Lemma int_digits_value (s : str) (acc : Z) :
  Forall (fun c => isdecimal c = true) s ->
  int_digits acc s
  = Ok (fold_left (fun a c => (10 * a + digit_value c)%Z) s acc).
Proof.
  intros H. revert acc.
  induction H as [|c s Hc _ IH]; intros acc; simpl; [reflexivity|].
  rewrite (isdecimal_decimal _ Hc). apply IH.
Qed.

(** [int] on a run of digits: the value of the run, or [ValueError]
when the run is too long. *)
Lemma int_of_digits (s : str) :
  s <> [] -> Forall (fun c => isdecimal c = true) s ->
  int s = if too_long s then Raise ValueError else Ok (concatenated_digits s).
Proof.
  intros Hne H. unfold int, concatenated_digits, too_long.
  destruct s as [|c s]; [congruence|].
  destruct (int_max_str_digits <? Z.of_nat (List.length (c :: s)))%Z;
    [reflexivity|].
  rewrite (filter_all_decimal H). now apply int_digits_value.
Qed.

Lemma fold_digits_nonneg (s : str) (acc : Z) :
  (0 <= acc)%Z ->
  (0 <= fold_left (fun a c => (10 * a + digit_value c)%Z) s acc)%Z.
Proof.
  revert acc.
  induction s as [|c s IH]; intros acc Hacc; cbn [fold_left]; [assumption|].
  apply IH. pose proof (digit_value_nonneg c). lia.
Qed.

Lemma concatenated_digits_nonneg (s : str) : (0 <= concatenated_digits s)%Z.
Proof. apply fold_digits_nonneg. lia. Qed.

Lemma concatenated_digits_none (s : str) :
  filter isdecimal s = [] -> concatenated_digits s = 0%Z.
Proof. unfold concatenated_digits. now intros ->. Qed.

(** ** The regular expressions on digits *)

Lemma span_digits_all (s : str) :
  Forall (fun c => isdecimal c = true) (Re.span_digits s).
Proof.
  induction s as [|c s IH]; simpl; [constructor|].
  destruct (isdecimal c) eqn:D; constructor; assumption.
Qed.

Lemma search_digits_run (s run : str) :
  Re.search_digits s = Some run ->
  run <> [] /\ Forall (fun c => isdecimal c = true) run.
Proof.
  induction s as [|c s IH]; simpl; [discriminate|].
  destruct (isdecimal c) eqn:D; [|exact IH].
  intros [= <-]. split.
  - discriminate.
  - constructor; [exact D | apply span_digits_all].
Qed.

Lemma flush_nonempty (run : str) : Forall (fun r => r <> []) (Re.flush run).
Proof. destruct run; simpl; repeat constructor. discriminate. Qed.

Lemma concat_flush (run : str) : List.concat (Re.flush run) = run.
Proof. destruct run; simpl; [reflexivity|]. now rewrite app_nil_r. Qed.

Lemma findall_digits_from_nonempty (s run : str) :
  Forall (fun r => r <> []) (Re.findall_digits_from run s).
Proof.
  revert run. induction s as [|c s IH]; intros run; simpl.
  - apply flush_nonempty.
  - destruct (isdecimal c); [apply IH|].
    apply Forall_app. split; [apply flush_nonempty | apply IH].
Qed.

(** The runs that [findall] returns, put end to end, are the digits of
the text. *)
Lemma findall_digits_from_concat (s run : str) :
  List.concat (Re.findall_digits_from run s) = run ++ filter isdecimal s.
Proof.
  revert run. induction s as [|c s IH]; intros run; simpl.
  - rewrite concat_flush. now rewrite app_nil_r.
  - destruct (isdecimal c).
    + rewrite IH. now rewrite <- app_assoc.
    + rewrite concat_app, concat_flush, IH. reflexivity.
Qed.

Lemma join_empty_concat (parts : list str) : join [] parts = List.concat parts.
Proof.
  induction parts as [|p [|q rest] IH]; simpl in *.
  - reflexivity.
  - now rewrite app_nil_r.
  - now rewrite IH.
Qed.

Lemma filter_decimal_replace_nbsp (s : str) :
  filter isdecimal (replace_char nbsp space s) = filter isdecimal s.
Proof.
  unfold replace_char.
  induction s as [|c s IH]; simpl; [reflexivity|].
  rewrite IH. unfold char_eqb.
  destruct (N.eqb_spec c nbsp) as [->|_]; reflexivity.
Qed.

(** [normalize_digits] computes what the specification describes, or
raises [ValueError] when the text has too many digits. *)
Lemma normalize_digits_spec (s : str) :
  normalize_digits s
  = if too_long (filter isdecimal s) then Raise ValueError
    else Ok (concatenated_digits s).
Proof.
  unfold normalize_digits, Re.findall_digits.
  set (t := replace_char nbsp space s).
  pose proof (findall_digits_from_concat t []) as Hc.
  pose proof (findall_digits_from_nonempty t []) as Hne.
  simpl in Hc. unfold t in Hc at 2. rewrite filter_decimal_replace_nbsp in Hc.
  destruct (Re.findall_digits_from [] t) as [|r rs] eqn:E.
  - cbn [List.concat app] in Hc. rewrite <- Hc. cbn [is_empty].
    now rewrite concatenated_digits_none by (now symmetry).
  - cbn [is_empty]. rewrite join_empty_concat, Hc.
    assert (Hall : Forall (fun c => isdecimal c = true) (filter isdecimal s)).
    { apply Forall_forall. intros c Hin. now apply filter_In in Hin. }
    rewrite int_of_digits; [| |exact Hall].
    + unfold concatenated_digits. now rewrite (filter_all_decimal Hall).
    + intros Hnil. rewrite Hnil in Hc. simpl in Hc.
      inversion Hne as [|? ? Hr _]; subst. destruct r; [congruence|discriminate].
Qed.

(** ** [sorted] is a stable sort *)

Section SortedFacts.
Variable A : Type.
Variable key : A -> Z.

Let le_key (a b : A) : Prop := (key a <= key b)%Z.
Let in_class (w : Z) (a : A) : bool := (key a =? w)%Z.

Lemma insert_Permutation (x : A) (l : list A) :
  Permutation (x :: l) (insert key x l).
Proof.
  induction l as [|y l IH]; simpl; [reflexivity|].
  destruct (key x <=? key y)%Z; [reflexivity|].
  rewrite perm_swap. now apply perm_skip.
Qed.

Lemma sorted_Permutation (l : list A) : Permutation l (sorted key l).
Proof.
  induction l as [|x l IH]; simpl; [reflexivity|].
  rewrite <- insert_Permutation. now apply perm_skip.
Qed.

Lemma insert_StronglySorted (x : A) (l : list A) :
  StronglySorted le_key l -> StronglySorted le_key (insert key x l).
Proof.
  induction 1 as [|y l Hs IH Hy]; simpl.
  - repeat constructor.
  - destruct (Z.leb_spec (key x) (key y)) as [Hle|Hgt].
    + constructor; [now constructor|].
      constructor; [exact Hle|].
      eapply Forall_impl; [|exact Hy].
      intros a Ha. unfold le_key in *. lia.
    + constructor; [exact IH|].
      eapply Permutation_Forall; [apply insert_Permutation|].
      constructor; [unfold le_key; lia | exact Hy].
Qed.

Lemma sorted_StronglySorted (l : list A) : StronglySorted le_key (sorted key l).
Proof.
  induction l as [|x l IH]; simpl; [constructor|].
  now apply insert_StronglySorted.
Qed.

(** An element enters its class of equal keys at the front: the
elements it passes have a smaller key. *)
Lemma filter_insert (w : Z) (x : A) (l : list A) :
  filter (in_class w) (insert key x l) = filter (in_class w) (x :: l).
Proof.
  induction l as [|y l IH]; [reflexivity|].
  cbn [insert].
  destruct (Z.leb_spec (key x) (key y)) as [Hle|Hgt]; [reflexivity|].
  cbn [filter] in *. rewrite IH. unfold in_class.
  destruct (Z.eqb_spec (key x) w), (Z.eqb_spec (key y) w); try reflexivity.
  lia.
Qed.

Lemma filter_sorted (w : Z) (l : list A) :
  filter (in_class w) (sorted key l) = filter (in_class w) l.
Proof.
  induction l as [|x l IH]; [reflexivity|].
  cbn [sorted]. rewrite filter_insert. cbn [filter]. now rewrite IH.
Qed.

End SortedFacts.

(** ** The loop over the rows *)

Lemma getitem_head (A : Type) (x : A) (l : list A) : getitem (x :: l) 0 = Ok x.
Proof. reflexivity. Qed.

(** One turn of the loop: the subscripts are guarded, and the row is
skipped, or gives its entry, or makes [int] raise. *)
Lemma parse_rows_cons (tr : PageElement) (trs : list PageElement)
  (rows : list PriceEntry) :
  parse_rows (tr :: trs) rows
  = if row_raises tr then Raise ValueError
    else parse_rows trs (rows ++ match entry_of_row tr with
                                 | Some e => [e]
                                 | None => []
                                 end).
Proof.
  cbn [parse_rows]. unfold row_raises, entry_of_row, raw_price_text, cells.
  destruct (find_all (lit "td") tr) as [|td0 others] eqn:Etds.
  - cbn [is_empty List.map]. now rewrite app_nil_r.
  - cbn [is_empty List.map]. rewrite getitem_head. cbn [bind].
    destruct (Re.search_denylist (get_text (lit " ") td0));
      [now rewrite app_nil_r|].
    destruct (Re.search_digits (get_text (lit " ") td0)) as [run|] eqn:Erun;
      [|now rewrite app_nil_r].
    apply search_digits_run in Erun as [Hne Hall].
    rewrite (int_of_digits Hne Hall).
    destruct (too_long run); [reflexivity|]. cbn [bind orb].
    destruct others as [|td1 others].
    + cbn [List.length Nat.ltb Nat.leb bind List.map].
      rewrite normalize_digits_spec.
      destruct (too_long (filter isdecimal [])); reflexivity.
    + cbn [List.length Nat.ltb Nat.leb getitem nth_error bind List.map].
      rewrite normalize_digits_spec.
      destruct (too_long (filter isdecimal (get_text (lit " ") td1)));
        reflexivity.
Qed.

(** The loop on rows that [int] accepts: it adds to [rows] the entries
of the data rows, in order. *)
Lemma parse_rows_spec (trs : list PageElement) (rows : list PriceEntry) :
  Forall (fun tr => row_raises tr = false) trs ->
  parse_rows trs rows
  = Ok (rows ++ flat_map (fun tr => match entry_of_row tr with
                                    | Some e => [e]
                                    | None => []
                                    end) trs).
Proof.
  intros H. revert rows.
  induction H as [|tr trs Htr _ IH]; intros rows.
  - simpl. now rewrite app_nil_r.
  - rewrite parse_rows_cons, Htr, IH. cbn [flat_map].
    now rewrite <- app_assoc.
Qed.

(** What the loop returns, when it returns. *)
Lemma parse_rows_Ok (trs : list PageElement) (rows r : list PriceEntry) :
  parse_rows trs rows = Ok r ->
  Forall (fun tr => row_raises tr = false) trs
  /\ r = rows ++ flat_map (fun tr => match entry_of_row tr with
                                     | Some e => [e]
                                     | None => []
                                     end) trs.
Proof.
  revert rows. induction trs as [|tr trs IH]; intros rows.
  - simpl. intros [= <-]. split; [constructor | now rewrite app_nil_r].
  - rewrite parse_rows_cons. destruct (row_raises tr) eqn:Htr; [discriminate|].
    intros H. apply IH in H as [Hall ->].
    split; [now constructor|]. cbn [flat_map]. now rewrite <- app_assoc.
Qed.


(** [parse_table] on a page that has the table, when [int] accepts the
rows. *)
Lemma parse_table_found (soup : PageElement) (table : Located) :
  find_table soup = Some table ->
  Forall (fun tr => row_raises tr = false) (select_tbody_tr table) ->
  parse_table soup
  = Ok (first_date (find_all_text (element table)),
        Some (sorted weight_g (source_rows table))).
Proof.
  intros H Hrows. unfold parse_table. rewrite H.
  now rewrite (parse_rows_spec _ Hrows).
Qed.


(** What [parse_table] returns, when it returns. *)
Lemma parse_table_Ok (soup : PageElement) (lu : option str)
  (rows : option (list PriceEntry)) :
  parse_table soup = Ok (lu, rows) ->
  match find_table soup with
  | None => lu = None /\ rows = None
  | Some table =>
      lu = first_date (find_all_text (element table))
      /\ rows = Some (sorted weight_g (source_rows table))
      /\ Forall (fun tr => row_raises tr = false) (select_tbody_tr table)
  end.
Proof.
  unfold parse_table. destruct (find_table soup) as [table|].
  - destruct (parse_rows (select_tbody_tr table) []) as [r|e] eqn:P;
      [|discriminate].
    apply parse_rows_Ok in P as [Hall ->]. cbn [bind app].
    intros [= <- <-]. repeat split. exact Hall.
  - intros [= <- <-]. now split.
Qed.


Lemma entry_of_row_price (tr : PageElement) (e : PriceEntry) :
  entry_of_row tr = Some e ->
  (0 <= weight_g e)%Z
  /\ price_str e = raw_price_text tr
  /\ price_uzs e = concatenated_digits (price_str e).
Proof.
  unfold entry_of_row.
  destruct (cells tr) as [|first_text others]; [discriminate|].
  destruct (Re.search_denylist _); [discriminate|].
  destruct (Re.search_digits _); [|discriminate].
  intros [= <-]. cbn.
  split; [apply concatenated_digits_nonneg | split; reflexivity].
Qed.

Lemma source_rows_entry (table : Located) (e : PriceEntry) :
  In e (source_rows table) ->
  exists tr, In tr (select_tbody_tr table) /\ entry_of_row tr = Some e.
Proof.
  unfold source_rows. intros H.
  apply in_flat_map in H as [tr [Htr He]].
  exists tr. split; [exact Htr|].
  destruct (entry_of_row tr) as [e'|]; [|contradiction].
  destruct He as [->|[]]. reflexivity.
Qed.

(** ** The extractor *)

Lemma find_table_None (soup : PageElement) :
  find_table soup = None <->
  select_one_h1_sibling_table soup = None
  /\ find_ (lit "table") class_lambda soup = None.
Proof.
  unfold find_table.
  destruct (select_one_h1_sibling_table soup); split.
  - discriminate.
  - intros [H _]. discriminate.
  - now split.
  - now intros [_ H].
Qed.

Lemma parse_table_rows (soup : PageElement) (lu : option str)
  (rows : list PriceEntry) :
  parse_table soup = Ok (lu, Some rows) ->
  exists table,
    find_table soup = Some table
    /\ rows = sorted weight_g (source_rows table).
Proof.
  intros H. apply parse_table_Ok in H.
  destruct (find_table soup) as [table|].
  - destruct H as [_ [[= ->] _]]. now exists table.
  - destruct H as [_ [=]].
Qed.

(** C2, as the code has it: every entry that [parse_table] returns has a
[weight_g] that is not negative.  It is the value of the first run of
digits of the first cell, and that run may be made of zeros. *)
Theorem extract_weight_nonneg (soup : PageElement) (lu : option str)
  (rows : list PriceEntry) (e : PriceEntry) :
  parse_table soup = Ok (lu, Some rows) ->
  In e rows ->
  (0 <= weight_g e)%Z.
Proof.
  intros H Hin.
  apply parse_table_rows in H as [table [_ ->]].
  apply (Permutation_in _ (Permutation_sym (sorted_Permutation weight_g _))) in Hin.
  apply source_rows_entry in Hin as [tr [_ He]].
  now apply entry_of_row_price in He.
Qed.

Lemma extract_weight_nonneg_witness : (0 <= weight_g entry_5g)%Z.
Proof.
  apply (@extract_weight_nonneg scenario_A_page None [entry_5g] entry_5g).
  - vm_compute. reflexivity.
  - left. reflexivity.
Defined.

(** C2, as the claim words it, fails: a row whose first cell reads
"0 gramm" gives an entry of weight 0, which is not greater than 0. *)
Lemma extract_weight_zero :
  parse_table zero_weight_page = Ok (None, Some [entry_0g])
  /\ In entry_0g [entry_0g]
  /\ ~ (0 < weight_g entry_0g)%Z.
Proof.
  split; [vm_compute; reflexivity|].
  split; [left; reflexivity|].
  vm_compute. discriminate.
Qed.

(** C3: on a page that has the table, the entries that [parse_table]
returns are sorted by ascending [weight_g]; the sort is stable, the
entries of one weight being in the order of their rows in the page;
[price_str] of an entry is the raw text of the second cell of its row,
and [price_uzs] is the integer formed by all the digits of that text, 0
when it has none. *)
Theorem extract_sorted_stable_prices (soup : PageElement) (table : Located)
  (lu : option str) (rows : list PriceEntry) :
  find_table soup = Some table ->
  parse_table soup = Ok (lu, Some rows) ->
  StronglySorted le_weight rows
  /\ Permutation (source_rows table) rows
  /\ (forall w, filter (has_weight w) rows
                = filter (has_weight w) (source_rows table))
  /\ Forall (fun e =>
               (exists tr, In tr (select_tbody_tr table)
                           /\ entry_of_row tr = Some e
                           /\ price_str e = raw_price_text tr)
               /\ price_uzs e = concatenated_digits (price_str e)
               /\ (filter isdecimal (price_str e) = [] -> price_uzs e = 0%Z))
            rows.
Proof.
  intros F H. apply parse_table_Ok in H. rewrite F in H.
  destruct H as [_ [[= ->] _]].
  split; [apply sorted_StronglySorted|].
  split; [apply sorted_Permutation|].
  split; [intros w; apply (filter_sorted weight_g w)|].
  apply Forall_forall. intros e Hin.
  apply (Permutation_in _ (Permutation_sym (sorted_Permutation weight_g _))) in Hin.
  apply source_rows_entry in Hin as [tr [Htr He]].
  destruct (entry_of_row_price _ He) as [_ [Hs Hp]].
  split; [now exists tr|].
  split; [exact Hp|].
  intros Hnone. rewrite Hp. now apply concatenated_digits_none.
Qed.

Lemma extract_sorted_stable_prices_witness :
  StronglySorted le_weight
    [{| weight_g := 5; price_uzs := 0; price_str := lit "narxi yo'q" |};
     entry_5g;
     {| weight_g := 10; price_uzs := 7000; price_str := lit "7 000" |}].
Proof.
  apply (@extract_sorted_stable_prices
           (page [row "10 g" "7 000"; row "5 g" "narxi yo'q";
                  row "5 gramm" "3 250 000"])
           {| in_tbody := false; after_h1 := false;
              element := Tag (lit "table")
                           (Some [lit "table"; lit "table-bordered"])
                           [Tag (lit "tbody") None
                              [row "10 g" "7 000"; row "5 g" "narxi yo'q";
                               row "5 gramm" "3 250 000"]] |}
           None).
  - reflexivity.
  - vm_compute. reflexivity.
Defined.




Lemma cells_two (tr : PageElement) (a b : str) :
  cells tr = [a; b] -> raw_price_text tr = b.
Proof. unfold raw_price_text. now intros ->. Qed.

(** C8: a page whose table has, as body rows, a row with the cells
"5 gramm" and "3 250 000" and a row with the cells "Og'irligi" and
"Narxi" gives exactly one entry, of weight 5 and price 3250000, whose
[price_str] is "3 250 000"; the other row is skipped because the
denylist, which ignores case, matches its first cell. *)
Theorem extract_scenario_A (soup : PageElement) (table : Located)
  (header data : PageElement) :
  find_table soup = Some table ->
  select_tbody_tr table = [data; header]
  \/ select_tbody_tr table = [header; data] ->
  cells data = [lit "5 gramm"; lit "3 250 000"] ->
  cells header = [lit "Og'irligi"; lit "Narxi"] ->
  (exists lu, parse_table soup = Ok (lu, Some [entry_5g]))
  /\ Re.search_denylist (lit "Og'irligi") = true
  /\ entry_of_row header = None.
Proof.
  intros F Hrows Hdata Hheader.
  assert (Hd : entry_of_row data = Some entry_5g).
  { unfold entry_of_row. rewrite (cells_two _ Hdata), Hdata. reflexivity. }
  assert (Hh : entry_of_row header = None).
  { unfold entry_of_row. rewrite Hheader. reflexivity. }
  assert (Rd : row_raises data = false).
  { unfold row_raises. rewrite (cells_two _ Hdata), Hdata. reflexivity. }
  assert (Rh : row_raises header = false).
  { unfold row_raises. rewrite Hheader. reflexivity. }
  split; [|split; [reflexivity | exact Hh]].
  exists (first_date (find_all_text (element table))).
  rewrite (parse_table_found _ F).
  - unfold source_rows.
    destruct Hrows as [-> | ->]; cbn [flat_map]; rewrite Hd, Hh; reflexivity.
  - destruct Hrows as [-> | ->]; repeat constructor; assumption.
Qed.

Lemma extract_scenario_A_witness :
  (exists lu, parse_table scenario_A_page = Ok (lu, Some [entry_5g]))
  /\ Re.search_denylist (lit "Og'irligi") = true
  /\ entry_of_row header_row = None.
Proof.
  apply (@extract_scenario_A scenario_A_page
           {| in_tbody := false; after_h1 := true;
              element := bordered_table [data_row; header_row] |}
           header_row data_row).
  - reflexivity.
  - left. reflexivity.
  - reflexivity.
  - reflexivity.
Defined.

(** ** The cache file *)

Lemma load_cache_eq (now : datetime) (w : World) :
  load_cache now w = (Ok (usable now (cache_file w)), log EvLoad w).
Proof.
  destruct w as [[[|data]|] t]; cbv [load_cache mbind os_path_exists
    try_except_m read_cache_file ret negb log cache_file trace usable];
    try reflexivity.
  destruct (now <? data_expires_at data)%Z; reflexivity.
Qed.

Lemma clear_cache_eq (w : World) :
  clear_cache w = (Ok tt, write_file None (log EvClear w)).
Proof. destruct w as [[c|] t]; reflexivity. Qed.


Lemma cache_status_eq (now : datetime) (w : World) :
  cache_status now w
  = (Ok match cache_file w with
        | None => missing
        | Some Unreadable => error CacheFileUnreadable
        | Some (Json data) =>
            if (now >=? data_expires_at data)%Z
            then expired (data_expires_at data)
            else valid (data_expires_at data)
        end, w).
Proof.
  destruct w as [[[|data]|] t]; cbv [cache_status mbind os_path_exists
    try_except_m read_cache_file ret negb cache_file]; try reflexivity.
  destruct (now >=? data_expires_at data)%Z; reflexivity.
Qed.

Lemma usable_later (now later : datetime) (file : option FileContent) :
  (now <= later)%Z -> usable now file = None -> usable later file = None.
Proof.
  intros Hle. destruct file as [[|data]|]; simpl; try reflexivity.
  destruct (Z.ltb_spec now (data_expires_at data)); [discriminate|].
  intros _. destruct (Z.ltb_spec later (data_expires_at data)); [lia|reflexivity].
Qed.



(** C6: whatever the file holds, [clear_cache] raises nothing and leaves
no file; the [load_cache] that follows returns nothing, [cache_status]
reporting the file as missing; a second [clear_cache] raises nothing and
leaves the file absent, as does any [clear_cache] on an absent file,
which only passes the test of existence. *)
Theorem invalidate_then_load (w : World) (now : datetime) (t : list Event) :
  let cleared := clear_cache w in
  let again := clear_cache (snd cleared) in
  fst cleared = Ok tt
  /\ cache_file (snd cleared) = None
  /\ fst (load_cache now (snd cleared)) = Ok None
  /\ fst (cache_status now (snd cleared)) = Ok missing
  /\ fst again = Ok tt
  /\ cache_file (snd again) = None
  /\ clear_cache {| cache_file := None; trace := t |}
     = (Ok tt, {| cache_file := None; trace := t ++ [EvClear] |}).
Proof.
  cbv zeta. rewrite !clear_cache_eq, load_cache_eq, cache_status_eq.
  repeat split.
Qed.

(** ** The handler *)

Section Handler.
Variable CBU_URL : str.

Lemma fetch_and_parse_eq (out : result Response) (now : datetime) (w : World) :
  fetch_and_parse CBU_URL out now w
  = (fst (fetch_and_parse CBU_URL out now (world_with None)), log EvRequest w).
Proof.
  unfold fetch_and_parse, mbind, requests_get, lift, raise, ret.
  destruct out as [resp|e]; [|reflexivity].
  destruct (negb (status_code resp =? 200)%Z); [reflexivity|].
  destruct (parse_table (text resp)) as [[lu [rows|]]|e]; reflexivity.
Qed.

Lemma check_cache_eq (force : bool) (now : datetime) (w : World) :
  check_cache force now w
  = let w1 := if force then write_file None (log EvClear w) else w in
    (Ok (usable now (cache_file w1)), log EvLoad w1).
Proof.
  unfold check_cache, mbind. destruct force.
  - rewrite clear_cache_eq. now rewrite load_cache_eq.
  - unfold ret. now rewrite load_cache_eq.
Qed.

Lemma fallback_eq (e : exn) (now : datetime) (w : World) :
  fallback e now w
  = (match usable now (cache_file w) with
     | Some data => Ok (cached_response stale (Some e) data)
     | None => Raise (hard_error e)
     end, log EvLoad w).
Proof.
  unfold fallback, mbind, hard_error. rewrite load_cache_eq.
  destruct (usable now (cache_file w)); [reflexivity|].
  destruct (isinstance_HTTPException e); reflexivity.
Qed.

Lemma store_eq (result : Snapshot) (now : datetime) (w : World) :
  store result now w
  = (Ok (stored_response result (now + CACHE_TTL)%Z),
     write_file (Some (Json {| data_result := result;
                               data_expires_at := (now + CACHE_TTL)%Z |}))
                (log EvSave w)).
Proof. reflexivity. Qed.

(** The handler, block by block. *)
Lemma get_gold_prices_eq (force : bool) (env : Env) (w : World) :
  get_gold_prices CBU_URL force env w
  = let w1 := if force then write_file None (log EvClear w) else w in
    match usable (now_load env) (cache_file w1) with
    | Some data => (Ok (cached_response hit None data), log EvLoad w1)
    | None =>
        let w2 := log EvRequest (log EvLoad w1) in
        let w3 := write_file (others env (cache_file w2)) w2 in
        match fst (fetch_and_parse CBU_URL (outcome env) (now_fetch env)
                     (world_with None)) with
        | Raise e => fallback e (now_after env) w3
        | Ok result => store result (now_after env) w3
        end
    end.
Proof.
  unfold get_gold_prices, mbind at 1. rewrite check_cache_eq. cbv zeta.
  destruct (usable (now_load env) _) as [data|]; [reflexivity|].
  rewrite fetch_and_parse_eq.
  destruct (fst (fetch_and_parse CBU_URL (outcome env) (now_fetch env)
                   (world_with None))); reflexivity.
Qed.

End Handler.

(** C7: under [force] the first block clears the cache and only then
loads it, so that it finds nothing; the request to the source follows,
whatever the file held; the response is never a hit, and it is the one
that the same request gives on an absent file. *)
Theorem force_refresh_fetches (CBU_URL : str) (env : Env) (w : World) :
  let r := get_gold_prices CBU_URL true env w in
  fst (check_cache true (now_load env) w) = Ok None
  /\ (exists last,
        trace (snd r) = trace w ++ [EvClear; EvLoad; EvRequest; last])
  /\ response_status (fst r) <> Some hit
  /\ fst r = fst (get_gold_prices CBU_URL true env (write_file None w)).
Proof.
  cbv zeta. rewrite check_cache_eq, !get_gold_prices_eq. cbv zeta.
  cbn [write_file log cache_file trace usable fst].
  split; [reflexivity|].
  destruct (fst (fetch_and_parse CBU_URL (outcome env) (now_fetch env)
                   (world_with None))) as [result|e].
  - rewrite !store_eq. cbn [fst snd write_file log trace response_status].
    split; [|split; [discriminate | reflexivity]].
    exists EvSave. now rewrite <- !app_assoc.
  - rewrite !fallback_eq. cbn [fst snd write_file log trace cache_file].
    split; [|split; [|reflexivity]].
    + exists EvLoad. now rewrite <- !app_assoc.
    + destruct (usable (now_after env) (others env None)); discriminate.
Qed.

Lemma usable_None_stays (env : Env) (force : bool) (w : World) :
  (forall file, others env file = file) ->
  (now_load env <= now_after env)%Z ->
  usable (now_load env)
    (cache_file (if force then write_file None (log EvClear w) else w)) = None ->
  usable (now_after env)
    (others env
       (cache_file (if force then write_file None (log EvClear w) else w)))
  = None.
Proof.
  intros Hid Hle H. rewrite Hid. now apply (usable_later _ Hle).
Qed.

(** C10, as the code has it: when no other request writes the file
while this one holds no lock, and the clock does not run backwards, the
response is never stale; a request whose first block found no usable cache and whose
fetch raised ends with the hard error of that exception. *)
Theorem sequential_never_stale (CBU_URL : str) (force : bool) (env : Env)
  (w : World) :
  (forall file, others env file = file) ->
  (now_load env <= now_after env)%Z ->
  let r := get_gold_prices CBU_URL force env w in
  let checked := check_cache force (now_load env) w in
  response_status (fst r) <> Some stale
  /\ (forall e,
        fst checked = Ok None ->
        fst (fetch_and_parse CBU_URL (outcome env) (now_fetch env) (snd checked))
        = Raise e ->
        fst r = Raise (hard_error e)).
Proof.
  intros Hid Hle. cbv zeta.
  rewrite get_gold_prices_eq, check_cache_eq. cbv zeta. cbn [fst snd].
  pose proof (@usable_None_stays env force w Hid Hle) as Hstay.
  destruct (usable (now_load env) _) as [data|] eqn:U.
  - split; [discriminate|]. intros e [=].
  - cbn [log write_file cache_file trace] in *.
    specialize (Hstay eq_refl).
    rewrite (fetch_and_parse_eq CBU_URL (outcome env) (now_fetch env)
               (log EvLoad _)).
    cbn [fst].
    destruct (fst (fetch_and_parse CBU_URL (outcome env) (now_fetch env)
                     (world_with None))) as [result|e0].
    + rewrite store_eq. split; [discriminate|]. intros e _ [=].
    + rewrite fallback_eq. cbn [fst cache_file write_file log]. rewrite Hstay.
      split; [discriminate|]. now intros e _ [= <-].
Qed.

Lemma sequential_never_stale_witness :
  response_status
    (fst (get_gold_prices CBU_URL_default false timeout_env
            (world_with (Some Unreadable))))
  <> Some stale.
Proof.
  apply (@sequential_never_stale CBU_URL_default false timeout_env
           (world_with (Some Unreadable))).
  - reflexivity.
  - vm_compute. discriminate.
Defined.

(** C10, as the claim words it, fails: [datetime.now] is the clock of
the system, and a request that runs alone, with no other write to the
file, answers stale when the clock is set back during the fetch to
before the expiry of the entry that the first block refused. *)
Lemma stale_when_clock_is_set_back :
  response_status
    (fst (get_gold_prices CBU_URL_default false clock_back_env
            (world_with (Some (Json cached_5g)))))
  = Some stale
  /\ (forall file, others clock_back_env file = file)
  /\ usable (now_load clock_back_env) (Some (Json cached_5g)) = None
  /\ (now_after clock_back_env < now_load clock_back_env)%Z.
Proof.
  split; [vm_compute; reflexivity|].
  split; [reflexivity|].
  split; vm_compute; reflexivity.
Qed.

(** C1 at the failing input: the cache file holds an entry that expired
one second ago and the request to the source times out; the handler
does not return the entry as stale, it raises the error 502, and the
file still holds the entry. *)
Theorem expired_entry_not_served_stale :
  let r := get_gold_prices CBU_URL_default false timeout_env
             (world_with (Some (Json cached_5g))) in
  fst r = Raise (HTTPException 502 (FailedToFetchSource timeout))
  /\ response_status (fst r) <> Some stale
  /\ cache_file (snd r) = Some (Json cached_5g)
  /\ (data_expires_at cached_5g <= now_load timeout_env)%Z.
Proof.
  cbv zeta. split; [vm_compute; reflexivity|].
  split; [vm_compute; discriminate|].
  split; [vm_compute; reflexivity|].
  vm_compute. discriminate.
Qed.

(** ** Concurrent requests *)

Section Requests.
Variable CBU_URL : str.

Lemma acquire_holding (pc pc' : Pc) :
  acquire pc = Some pc' -> holding pc = false /\ holding pc' = true.
Proof. destruct pc; simpl; intros [= <-]; now split. Qed.

(** A block ends outside of every block. *)
Lemma advance_released (pc pc' : Pc) (now : datetime) (out : result Response)
  (m : M Pc) (w w' : World) :
  advance CBU_URL pc now out = Some m -> m w = (Ok pc', w') ->
  holding pc' = false.
Proof.
  destruct pc as [force|force| |e|e|res|res|r]; simpl; intros [= <-];
    unfold try_except_m, mbind.
  - destruct (check_cache force now w) as [[[data|]|e] w1];
      unfold ret; intros [= <- _]; reflexivity.
  - destruct (fetch_and_parse CBU_URL out now w) as [[result|e] w1];
      unfold ret; intros [= <- _]; reflexivity.
  - destruct (fallback e now w) as [[r|e'] w1];
      unfold ret; intros [= <- _]; reflexivity.
  - destruct (store res now w) as [[r|e'] w1];
      unfold ret; intros [= <- _]; reflexivity.
Qed.

Lemma update_same (f : nat -> Pc) (i : nat) (pc : Pc) : update f i pc i = pc.
Proof. unfold update. now rewrite Nat.eqb_refl. Qed.

Lemma update_other (f : nat -> Pc) (i j : nat) (pc : Pc) :
  j <> i -> update f i pc j = f j.
Proof. unfold update. intros H. apply Nat.eqb_neq in H. now rewrite H. Qed.

Lemma step_lock_invariant (i : nat) (now : datetime) (out : result Response)
  (s s' : Server) :
  lock_invariant s -> step CBU_URL i now out s = Some s' -> lock_invariant s'.
Proof.
  intros Inv. unfold step.
  destruct (acquire (pcs s i)) as [pc'|] eqn:A.
  - destruct (cache_lock s) as [k|] eqn:L; [discriminate|].
    intros [= <-]. apply acquire_holding in A as [_ Hpc'].
    intros j. cbn [pcs cache_lock]. destruct (Nat.eq_dec j i) as [->|Hne].
    + rewrite update_same. now split.
    + rewrite (update_other _ _ Hne). rewrite (Inv j), L.
      split; [discriminate|]. intros [= E]. congruence.
  - destruct (advance CBU_URL (pcs s i) now out) as [m|] eqn:Adv; [|discriminate].
    destruct (m (shared s)) as [[pc'|e] w'] eqn:Run; [|discriminate].
    intros [= <-]. pose proof (advance_released _ _ _ _ Adv Run) as Hpc'.
    intros j. cbn [pcs cache_lock]. destruct (Nat.eq_dec j i) as [->|Hne].
    + rewrite update_same, Hpc'. split; [discriminate|].
      destruct (holding (pcs s i)) eqn:H; [discriminate|].
      intros L. apply Inv in L. congruence.
    + rewrite (update_other _ _ Hne).
      destruct (holding (pcs s i)) eqn:H.
      * apply Inv in H. rewrite (Inv j), H.
        split; [intros [= E]; congruence | discriminate].
      * apply Inv.
Qed.

Lemma start_lock_invariant (forces : nat -> bool) (file : option FileContent) :
  lock_invariant (start forces file).
Proof. intros i. simpl. split; discriminate. Qed.

Lemma run_lock_invariant (schedule : list Move) (s s' : Server) :
  lock_invariant s -> run CBU_URL schedule s = Some s' -> lock_invariant s'.
Proof.
  revert s. induction schedule as [|mv rest IH]; intros s Inv; simpl.
  - now intros [= <-].
  - destruct (step CBU_URL (who mv) (clock mv) (network mv) s) as [s1|] eqn:S;
      [|discriminate].
    apply IH. now apply (step_lock_invariant _ _ _ Inv S).
Qed.

End Requests.

(** C9, as the code has it: in every state that the server reaches, at
most one request is inside a [with cache_lock] block, and it is the
holder of the lock; the blocks of the requests (clear and load, the
load of [except], the save) are serialized, each one alone. *)
Theorem lock_serializes_blocks (CBU_URL : str) (forces : nat -> bool)
  (file : option FileContent) (schedule : list Move) (s : Server) :
  run CBU_URL schedule (start forces file) = Some s ->
  (forall i j, holding (pcs s i) = true -> holding (pcs s j) = true -> i = j)
  /\ (forall i, holding (pcs s i) = true <-> cache_lock s = Some i).
Proof.
  intros R.
  pose proof (run_lock_invariant _ _ (start_lock_invariant forces file) R) as Inv.
  split; [|exact Inv].
  intros i j Hi Hj. apply Inv in Hi. apply Inv in Hj. congruence.
Qed.

Lemma lock_serializes_blocks_witness :
  exists s,
    run CBU_URL_default [move 0 10%Z; move 0 10%Z; move 1 11%Z]
      (start no_force None) = Some s
    /\ cache_lock s = Some 1%nat
    /\ (forall i j,
          holding (pcs s i) = true -> holding (pcs s j) = true -> i = j).
Proof.
  eexists. split; [reflexivity|]. split; [reflexivity|].
  apply (@lock_serializes_blocks CBU_URL_default no_force None
           [move 0 10%Z; move 0 10%Z; move 1 11%Z]).
  reflexivity.
Defined.

(** C9, as the claim words it, fails.  Two requests that arrive on a
server without cache both find no cache in their first block and are
both between check and save, with the lock free; both then request the
source, and the second saves over the entry that the first has just
saved, without a new look at the cache. *)
Lemma concurrent_requests_fetch_twice :
  (exists s,
     run CBU_URL_default both_miss (start no_force None) = Some s
     /\ cache_lock s = None
     /\ pcs s 0%nat = Fetching /\ pcs s 1%nat = Fetching
     /\ in_section (pcs s 0%nat) = true /\ in_section (pcs s 1%nat) = true)
  /\ (exists s,
        run CBU_URL_default both_fetch_and_save (start no_force None) = Some s
        /\ trace (shared s)
           = [EvLoad; EvLoad; EvRequest; EvRequest; EvSave; EvSave]
        /\ count_requests (shared s) = 2%nat
        /\ (exists r0 r1,
              pcs s 0%nat = Done (Ok r0) /\ pcs s 1%nat = Done (Ok r1)
              /\ status (cache r0) = stored /\ status (cache r1) = stored)).
Proof.
  split.
  - eexists. split; [vm_compute; reflexivity|]. repeat split.
  - eexists. split; [vm_compute; reflexivity|].
    split; [reflexivity|]. split; [reflexivity|].
    do 2 eexists. repeat split.
Qed.

(** ** One request alone on the server is the handler *)

Section Solo.
Variable CBU_URL : str.

Lemma step_acquire (s : Server) (i : nat) (now : datetime)
  (out : result Response) (pc' : Pc) :
  acquire (pcs s i) = Some pc' -> cache_lock s = None ->
  step CBU_URL i now out s
  = Some {| cache_lock := Some i; shared := shared s;
            pcs := update (pcs s) i pc' |}.
Proof. intros A L. unfold step. now rewrite A, L. Qed.

Lemma step_advance (s : Server) (i : nat) (now : datetime)
  (out : result Response) (m : M Pc) (pc' : Pc) (w' : World) :
  acquire (pcs s i) = None ->
  advance CBU_URL (pcs s i) now out = Some m ->
  m (shared s) = (Ok pc', w') ->
  step CBU_URL i now out s
  = Some {| cache_lock := if holding (pcs s i) then None else cache_lock s;
            shared := w'; pcs := update (pcs s) i pc' |}.
Proof. intros A Adv R. unfold step. now rewrite A, Adv, R. Qed.

Lemma write_file_same (w : World) : write_file (cache_file w) w = w.
Proof. now destruct w. Qed.

Ltac advance_with H :=
  erewrite step_advance;
  [| cbn [pcs]; now rewrite update_same
   | cbn [pcs]; rewrite update_same; reflexivity
   | cbn [shared]; unfold try_except_m, mbind; rewrite H; reflexivity].

Ltac acquire_lock :=
  erewrite step_acquire;
  [| cbn [pcs]; rewrite update_same; reflexivity
   | cbn [pcs cache_lock]; rewrite !update_same; reflexivity].

(** The points of the server model are the blocks of [get_gold_prices]:
a request that runs while no other request does ends with the response
and the world of the handler. *)
Lemma solo_request (force : bool) (env : Env)
  (file : option FileContent) (i : nat) (forces : nat -> bool) :
  (forall f, others env f = f) -> forces i = force ->
  exists schedule s,
    Forall (fun mv => who mv = i) schedule
    /\ run CBU_URL schedule (start forces file) = Some s
    /\ pcs s i = Done (fst (get_gold_prices CBU_URL force env (world_with file)))
    /\ shared s = snd (get_gold_prices CBU_URL force env (world_with file))
    /\ cache_lock s = None.
Proof.
  intros Hid <-.
  pose (mv := fun now => {| who := i; clock := now; network := outcome env |}).
  assert (S1 : step CBU_URL i (now_load env) (outcome env) (start forces file)
               = Some {| cache_lock := Some i; shared := world_with file;
                         pcs := update (pcs (start forces file)) i
                                  (Checking (forces i)) |})
    by (now apply step_acquire).
  destruct (check_cache (forces i) (now_load env) (world_with file))
    as [[[data|]|e] w1] eqn:C.
  - exists [mv (now_load env); mv (now_load env)]. eexists.
    split; [repeat constructor|].
    split.
    + cbn [run who clock network mv]. rewrite S1.
      advance_with C. reflexivity.
    + cbn [pcs shared cache_lock]. rewrite !update_same. cbn [holding].
      unfold get_gold_prices, mbind. rewrite C. now repeat split.
  - destruct (fetch_and_parse CBU_URL (outcome env) (now_fetch env) w1)
      as [[res|e] w2] eqn:F.
    + exists [mv (now_load env); mv (now_load env); mv (now_fetch env);
              mv (now_after env); mv (now_after env)]. eexists.
      split; [repeat constructor|].
      split.
      * cbn [run who clock network mv]. rewrite S1.
        advance_with C. advance_with F. acquire_lock.
        erewrite step_advance;
          [| cbn [pcs]; now rewrite update_same
           | cbn [pcs]; rewrite update_same; reflexivity
           | cbn [shared]; unfold try_except_m, mbind; rewrite store_eq;
             reflexivity].
        reflexivity.
      * cbn [pcs shared cache_lock]. rewrite !update_same. cbn [holding].
        unfold get_gold_prices, mbind. rewrite C, F.
        unfold unlocked. rewrite Hid, store_eq, write_file_same.
        now repeat split.
    + destruct (fallback e (now_after env) w2) as [r w3] eqn:B.
      exists [mv (now_load env); mv (now_load env); mv (now_fetch env);
              mv (now_after env); mv (now_after env)]. eexists.
      split; [repeat constructor|].
      split.
      * cbn [run who clock network mv]. rewrite S1.
        advance_with C. advance_with F. acquire_lock.
        erewrite step_advance;
          [| cbn [pcs]; now rewrite update_same
           | cbn [pcs]; rewrite update_same; reflexivity
           | cbn [shared]; unfold try_except_m, mbind; rewrite B;
             destruct r; reflexivity].
        reflexivity.
      * cbn [pcs shared cache_lock]. rewrite !update_same. cbn [holding].
        unfold get_gold_prices, mbind. rewrite C, F.
        unfold unlocked. rewrite Hid, write_file_same, B.
        destruct r; now repeat split.
  - rewrite check_cache_eq in C. discriminate.
Qed.

End Solo.

(** ** The scenarios of the specification, run *)

Example normalize_digits_spaces : normalize_digits (lit "3 250 000") = Ok 3250000%Z.
Proof. reflexivity. Qed.

(** Non-breaking spaces between the groups, and digits of another
script. *)
Example normalize_digits_nbsp :
  normalize_digits [51; 160; 50; 53; 48; 160; 1632; 1633; 1634]%N = Ok 3250012%Z.
Proof. reflexivity. Qed.

Example normalize_digits_no_digit : normalize_digits (lit "narxi yo'q") = Ok 0%Z.
Proof. reflexivity. Qed.

Example denylist_ignores_case :
  Re.search_denylist (lit "SOTISH narxi") = true
  /\ Re.search_denylist (lit "5 gramm") = false.
Proof. split; reflexivity. Qed.

Example search_date_in_text :
  Re.search_date (lit "Sana: 1.12.2025 yil") = Some (lit "1.12.2025").
Proof. reflexivity. Qed.

(** Scenario B: with a valid cache the source is not asked, even when it
would time out. *)
Example scenario_B :
  let env := {| now_load := 1000%Z; outcome := Raise timeout;
                now_fetch := 1000%Z; others := fun file => file;
                now_after := 1000%Z |} in
  get_gold_prices CBU_URL_default false env (world_with (Some (Json cached_5g)))
  = (Ok (cached_response hit None cached_5g),
     {| cache_file := Some (Json cached_5g); trace := [EvLoad] |}).
Proof. reflexivity. Qed.

(** Scenario C: no cache and no answer of the source. *)
Example scenario_C :
  fst (get_gold_prices CBU_URL_default false timeout_env (world_with None))
  = Raise (HTTPException 502 (FailedToFetchSource timeout))
  /\ fst (get_gold_prices CBU_URL_default false timeout_env
            (world_with (Some Unreadable)))
     = Raise (HTTPException 502 (FailedToFetchSource timeout)).
Proof. split; reflexivity. Qed.

(** Scenario D: a fetch that succeeds is stored, and the next request
within 24 hours is a hit with the same content. *)
Example scenario_D :
  let first := get_gold_prices CBU_URL_default false (success_env 1000%Z)
                 (world_with None) in
  let second := get_gold_prices CBU_URL_default false
                  (success_env (1000 + CACHE_TTL - 1)%Z) (snd first) in
  response_status (fst first) = Some stored
  /\ response_status (fst second) = Some hit
  /\ (exists r1 r2, fst first = Ok r1 /\ fst second = Ok r2
                    /\ content r1 = content r2
                    /\ prices (content r1) = [entry_5g])
  /\ trace (snd second) = [EvLoad; EvRequest; EvSave; EvLoad].
Proof.
  cbv zeta. split; [vm_compute; reflexivity|]. split; [vm_compute; reflexivity|].
  split; [|vm_compute; reflexivity].
  do 2 eexists. split; [vm_compute; reflexivity|].
  split; [vm_compute; reflexivity|]. split; vm_compute; reflexivity.
Qed.

(** * Further properties of the code *)

(** ** [normalize_digits] *)

Lemma fold_digits_shift (l : str) (acc : Z) :
  fold_left (fun a c => (10 * a + digit_value c)%Z) l acc
  = (acc * 10 ^ Z.of_nat (List.length l)
     + fold_left (fun a c => (10 * a + digit_value c)%Z) l 0)%Z.
Proof.
  revert acc. induction l as [|c l IH]; intros acc.
  - cbn [fold_left List.length]. change (Z.of_nat 0) with 0%Z.
    rewrite Z.pow_0_r. lia.
  - cbn [fold_left]. rewrite (IH (10 * acc + digit_value c)%Z).
    rewrite (IH (10 * 0 + digit_value c)%Z).
    replace (Z.of_nat (List.length (c :: l)))
      with (Z.succ (Z.of_nat (List.length l)))
      by (cbn [List.length]; lia).
    rewrite Z.pow_succ_r by lia. ring.
Qed.

Lemma fold_digits_zero (l : str) (acc : Z) :
  (0 <= acc)%Z ->
  fold_left (fun a c => (10 * a + digit_value c)%Z) l acc = 0%Z
  <-> acc = 0%Z /\ Forall (fun c => digit_value c = 0%Z) l.
Proof.
  revert acc. induction l as [|c l IH]; intros acc Hacc; cbn [fold_left].
  - split; [now split | now intros [H _]].
  - pose proof (digit_value_nonneg c) as Hc.
    rewrite IH by lia. split.
    + intros [H0 Hl]. split; [lia|]. constructor; [lia | exact Hl].
    + intros [H0 Hl]. inversion Hl; subst. split; [lia | assumption].
Qed.

(** Only the digits of a text and their order count: two texts with the
same digits give the same number, whatever stands between the digits
(spaces, non-breaking spaces, commas, a decimal point). *)
Theorem normalize_digits_separators (s t : str) :
  filter isdecimal s = filter isdecimal t ->
  normalize_digits s = normalize_digits t.
Proof.
  intros H. rewrite !normalize_digits_spec. unfold concatenated_digits.
  now rewrite H.
Qed.

Lemma normalize_digits_separators_witness :
  normalize_digits (lit "3 250 000") = normalize_digits (lit "3,250.000 so'm").
Proof.
  apply normalize_digits_separators. reflexivity.
Defined.

Lemma too_long_false (run : str) :
  too_long run = false
  <-> (Z.of_nat (List.length run) <= int_max_str_digits)%Z.
Proof. unfold too_long. apply Z.ltb_ge. Qed.

Lemma too_long_true (run : str) :
  too_long run = true
  <-> (int_max_str_digits < Z.of_nat (List.length run))%Z.
Proof. unfold too_long. apply Z.ltb_lt. Qed.

(** When [normalize_digits] returns on a text in two parts, it returns
on each part, and the number of the text is the number of the first
part, shifted by as many decimal places as the second part has digits,
plus the number of the second part. *)
Theorem normalize_digits_app (a b : str) (v : Z) :
  normalize_digits (a ++ b) = Ok v ->
  exists va vb,
    normalize_digits a = Ok va
    /\ normalize_digits b = Ok vb
    /\ v = (va * 10 ^ Z.of_nat (List.length (filter isdecimal b)) + vb)%Z.
Proof.
  rewrite !normalize_digits_spec.
  destruct (too_long (filter isdecimal (a ++ b))) eqn:T; [discriminate|].
  intros [= <-]. apply too_long_false in T.
  rewrite filter_app, length_app in T.
  exists (concatenated_digits a), (concatenated_digits b).
  assert (Ta : too_long (filter isdecimal a) = false)
    by (apply too_long_false; lia).
  assert (Tb : too_long (filter isdecimal b) = false)
    by (apply too_long_false; lia).
  rewrite Ta, Tb. repeat split.
  unfold concatenated_digits. rewrite filter_app, fold_left_app.
  now rewrite fold_digits_shift.
Qed.

Lemma normalize_digits_app_witness :
  exists va vb,
    normalize_digits (lit "3 ") = Ok va
    /\ normalize_digits (lit "250 so'm") = Ok vb
    /\ 3250%Z
       = (va * 10 ^ Z.of_nat (List.length (filter isdecimal (lit "250 so'm")))
          + vb)%Z.
Proof.
  apply (@normalize_digits_app (lit "3 ") (lit "250 so'm") 3250%Z).
  reflexivity.
Defined.

(** [normalize_digits] raises, and then [ValueError], exactly when the
text has more than 4300 digits; otherwise it returns a number that is
not negative, and that is 0 exactly when every digit of the text is a
zero, which includes the text without digits. *)
Theorem normalize_digits_zero (s : str) :
  ((int_max_str_digits < Z.of_nat (List.length (filter isdecimal s)))%Z ->
   normalize_digits s = Raise ValueError)
  /\ ((Z.of_nat (List.length (filter isdecimal s)) <= int_max_str_digits)%Z ->
      exists v,
        normalize_digits s = Ok v
        /\ (0 <= v)%Z
        /\ (v = 0%Z <->
            Forall (fun c => decimal c = Some 0%Z) (filter isdecimal s))).
Proof.
  rewrite normalize_digits_spec. split.
  - intros H. apply too_long_true in H. now rewrite H.
  - intros H. apply too_long_false in H. rewrite H.
    exists (concatenated_digits s).
    split; [reflexivity|]. split; [apply concatenated_digits_nonneg|].
    unfold concatenated_digits. rewrite fold_digits_zero by lia.
    split.
    + intros [_ H0]. rewrite Forall_forall in *. intros c Hc.
      specialize (H0 c Hc). apply filter_In in Hc as [_ Hd].
      rewrite (isdecimal_decimal _ Hd). now rewrite H0.
    + intros H0. split; [reflexivity|]. rewrite Forall_forall in *.
      intros c Hc. unfold digit_value. now rewrite (H0 c Hc).
Qed.

Lemma normalize_digits_zero_witness :
  normalize_digits long_run = Raise ValueError
  /\ exists v, normalize_digits (lit "0 00") = Ok v /\ (0 <= v)%Z.
Proof.
  split.
  - apply (proj1 (normalize_digits_zero long_run)). vm_compute. reflexivity.
  - destruct (proj2 (normalize_digits_zero (lit "0 00"))) as [v [H1 [H2 _]]].
    + vm_compute. discriminate.
    + now exists v.
Defined.

(** ** The rows of the table *)

Lemma search_digits_None (s : str) :
  Re.search_digits s = None <-> filter isdecimal s = [].
Proof.
  induction s as [|c s IH]; simpl; [now split|].
  destruct (isdecimal c); [split; discriminate | exact IH].
Qed.

Lemma search_denylist_head (s : str) :
  Re.search_denylist s
  = existsb (fun alt => Re.startswith_ignorecase alt s) Re.denylist
    || match s with [] => false | _ :: s' => Re.search_denylist s' end.
Proof. destruct s; reflexivity. Qed.

Lemma search_denylist_suffix (pre s : str) :
  Re.search_denylist s = true -> Re.search_denylist (pre ++ s) = true.
Proof.
  intros H. induction pre as [|c pre IH]; [exact H|].
  rewrite search_denylist_head. cbn [app]. rewrite IH. apply orb_true_r.
Qed.

Lemma startswith_ignorecase_app (p w post : str) :
  Re.startswith_ignorecase p w = true ->
  Re.startswith_ignorecase p (w ++ post) = true.
Proof.
  revert w. induction p as [|x p IH]; intros w; [reflexivity|].
  destruct w as [|y w]; [discriminate|]. cbn [Re.startswith_ignorecase app].
  intros H. apply andb_prop in H as [H1 H2]. now rewrite H1, (IH _ H2).
Qed.

Lemma search_denylist_word (alt w pre post : str) :
  In alt Re.denylist -> Re.startswith_ignorecase alt w = true ->
  Re.search_denylist (pre ++ w ++ post) = true.
Proof.
  intros Hin Hw. apply search_denylist_suffix.
  rewrite search_denylist_head. apply orb_true_iff. left.
  apply existsb_exists. exists alt.
  split; [exact Hin | now apply startswith_ignorecase_app].
Qed.

Lemma parse_rows_one (tr : PageElement) (rows : list PriceEntry) :
  parse_rows [tr] rows
  = if row_raises tr then Raise ValueError
    else Ok (rows ++ match entry_of_row tr with Some e => [e] | None => [] end).
Proof. rewrite parse_rows_cons. now destruct (row_raises tr). Qed.

Lemma skipped_row_raises (tr : PageElement) :
  skipped tr -> row_raises tr = false.
Proof.
  unfold skipped, row_raises.
  destruct (cells tr) as [|first_text others]; [reflexivity|].
  destruct (Re.search_denylist first_text); [reflexivity|].
  intros [H|H]; [discriminate|].
  apply search_digits_None in H. now rewrite H.
Qed.

Lemma entry_of_row_None (tr : PageElement) :
  entry_of_row tr = None <-> skipped tr.
Proof.
  unfold entry_of_row, skipped.
  destruct (cells tr) as [|first_text others]; [now split|].
  destruct (Re.search_denylist first_text).
  - split; [now left | reflexivity].
  - rewrite <- search_digits_None.
    destruct (Re.search_digits first_text).
    + split; [discriminate | intros [H|H]; discriminate].
    + split; [now right | reflexivity].
Qed.

(** The loop over the rows of two lists of rows in a row is the loop
over the first, then the loop over the second from the entries the
first has built. *)
Theorem parse_rows_app (a b : list PageElement) (rows : list PriceEntry) :
  parse_rows (a ++ b) rows = (r <- parse_rows a rows ;; parse_rows b r).
Proof.
  revert rows. induction a as [|tr a IH]; intros rows; [reflexivity|].
  cbn [app]. rewrite !parse_rows_cons.
  destruct (row_raises tr); [reflexivity | apply IH].
Qed.

Lemma skipped_row_adds_nothing (tr : PageElement) (rows : list PriceEntry) :
  skipped tr -> parse_rows [tr] rows = Ok rows.
Proof.
  intros H. rewrite parse_rows_one, (skipped_row_raises _ H).
  apply entry_of_row_None in H. rewrite H. now rewrite app_nil_r.
Qed.

(** A row adds nothing to the entries exactly when it has no cell, or
the denylist matches its first cell, or its first cell has no digit;
every other row adds one entry, at the end, or makes the loop raise
[ValueError], which no skipped row does. *)
Theorem row_skipped_iff (tr : PageElement) (rows : list PriceEntry) :
  (parse_rows [tr] rows = Ok rows <-> skipped tr)
  /\ (forall r, parse_rows [tr] rows = Ok r ->
      ~ skipped tr -> exists e, r = rows ++ [e])
  /\ (forall ex, parse_rows [tr] rows = Raise ex ->
      ex = ValueError /\ ~ skipped tr).
Proof.
  rewrite parse_rows_one.
  pose proof (entry_of_row_None tr) as HN.
  pose proof (@skipped_row_raises tr) as HR.
  destruct (row_raises tr) eqn:R.
  - assert (Hns : ~ skipped tr) by (intros H; apply HR in H; discriminate).
    split; [|split].
    + split; [discriminate | intros H; now contradiction Hns].
    + intros r [=].
    + intros ex [= <-]. now split.
  - destruct (entry_of_row tr) as [e|].
    + assert (Hns : ~ skipped tr) by (intros H; apply HN in H; discriminate).
      split; [|split].
      * split; [|intros H; now contradiction Hns]. intros [= H].
        apply (f_equal (@List.length PriceEntry)) in H.
        rewrite length_app in H. simpl in H. lia.
      * intros r [= <-] _. now exists e.
      * intros ex [=].
    + assert (Hs : skipped tr) by (now apply HN).
      split; [|split].
      * rewrite app_nil_r. now split.
      * intros r _ H. now contradiction H.
      * intros ex [=].
Qed.

(** A first cell that contains a word of the denylist anywhere, as it is
written or in capitals, makes the loop skip the row, even when the cell
also has a weight. *)
Theorem denylisted_word_skips_row (tr : PageElement) (word pre post : str)
  (others : list str) (rows : list PriceEntry) :
  In word Re.denylist ->
  cells tr = (pre ++ word ++ post) :: others
  \/ cells tr = (pre ++ List.map ascii_upper word ++ post) :: others ->
  parse_rows [tr] rows = Ok rows.
Proof.
  intros Hin Hcells.
  apply skipped_row_adds_nothing.
  unfold skipped.
  assert (Hup : Re.startswith_ignorecase word (List.map ascii_upper word) = true).
  { simpl in Hin.
    repeat (destruct Hin as [<-|Hin]; [reflexivity|]). contradiction. }
  assert (Hid : Re.startswith_ignorecase word word = true).
  { simpl in Hin.
    repeat (destruct Hin as [<-|Hin]; [reflexivity|]). contradiction. }
  destruct Hcells as [-> | ->]; left;
    eapply search_denylist_word; eassumption.
Qed.

Lemma denylisted_word_skips_row_witness :
  parse_rows [row "10 gramm (NARXI)" "7 000"] [entry_5g] = Ok [entry_5g].
Proof.
  apply (@denylisted_word_skips_row (row "10 gramm (NARXI)" "7 000")
           (lit "narx") (lit "10 gramm (") (lit "I)") [lit "7 000"] [entry_5g]).
  - do 4 right. left. reflexivity.
  - right. reflexivity.
Defined.

Lemma span_digits_run (run rest : str) :
  Forall (fun c => isdecimal c = true) run ->
  match rest with [] => True | c :: _ => isdecimal c = false end ->
  Re.span_digits (run ++ rest) = run.
Proof.
  intros Hrun Hrest. induction Hrun as [|c run Hc _ IH]; cbn [app].
  - destruct rest as [|c rest]; [reflexivity|]. simpl. now rewrite Hrest.
  - simpl. now rewrite Hc, IH.
Qed.

Lemma search_digits_first_run (pre run rest : str) :
  filter isdecimal pre = [] ->
  run <> [] ->
  Forall (fun c => isdecimal c = true) run ->
  match rest with [] => True | c :: _ => isdecimal c = false end ->
  Re.search_digits (pre ++ run ++ rest) = Some run.
Proof.
  intros Hpre Hne Hrun Hrest. induction pre as [|c pre IH]; cbn [app].
  - destruct run as [|d run]; [congruence|].
    pose proof (@span_digits_run (d :: run) rest Hrun Hrest) as Hspan.
    inversion Hrun as [|? ? Hd _]; subst.
    cbn [app] in Hspan. cbn [app Re.search_digits]. rewrite Hd.
    now rewrite Hspan.
  - simpl in Hpre. cbn [Re.search_digits].
    destruct (isdecimal c); [discriminate|]. now apply IH.
Qed.

(** The weight of a row is the number of the first run of digits of its
first cell alone: the digits that come after the run, beyond a
character that is no digit, play no part, so that a weight written in
groups of digits is read as its first group.  The run and the digits of
the price text are of at most 4300 digits, as [int] asks. *)
Theorem weight_is_first_run (tr : PageElement) (pre run rest : str)
  (others : list str) (rows : list PriceEntry) :
  cells tr = (pre ++ run ++ rest) :: others ->
  Re.search_denylist (pre ++ run ++ rest) = false ->
  filter isdecimal pre = [] ->
  run <> [] ->
  Forall (fun c => isdecimal c = true) run ->
  match rest with [] => True | c :: _ => isdecimal c = false end ->
  (Z.of_nat (List.length run) <= int_max_str_digits)%Z ->
  (Z.of_nat (List.length (filter isdecimal (raw_price_text tr)))
   <= int_max_str_digits)%Z ->
  exists e,
    parse_rows [tr] rows = Ok (rows ++ [e])
    /\ normalize_digits run = Ok (weight_g e).
Proof.
  intros Hcells Hdeny Hpre Hne Hrun Hrest Hlen Hprice.
  apply too_long_false in Hlen. apply too_long_false in Hprice.
  assert (Hr : row_raises tr = false).
  { unfold row_raises.
    rewrite Hcells, Hdeny,
      (@search_digits_first_run pre run rest Hpre Hne Hrun Hrest).
    now rewrite Hlen, Hprice. }
  rewrite parse_rows_one, Hr. unfold entry_of_row.
  rewrite Hcells, Hdeny, (@search_digits_first_run pre run rest Hpre Hne Hrun Hrest).
  eexists. split; [reflexivity|]. cbn [weight_g].
  rewrite normalize_digits_spec, (filter_all_decimal Hrun), Hlen.
  reflexivity.
Qed.

Lemma weight_is_first_run_witness :
  exists e,
    parse_rows [row "1 000 gramm" "650 000 000"] [] = Ok ([] ++ [e])
    /\ normalize_digits (lit "1") = Ok (weight_g e).
Proof.
  apply (@weight_is_first_run (row "1 000 gramm" "650 000 000")
           [] (lit "1") (lit " 000 gramm") [lit "650 000 000"] []).
  - reflexivity.
  - reflexivity.
  - reflexivity.
  - discriminate.
  - repeat constructor.
  - reflexivity.
  - vm_compute. discriminate.
  - vm_compute. discriminate.
Defined.

Lemma length_flat_map_option (A B : Type) (f : A -> option B) (l : list A) :
  (List.length (flat_map (fun a => match f a with
                                   | Some b => [b]
                                   | None => []
                                   end) l) <= List.length l)%nat.
Proof.
  induction l as [|a l IH]; simpl; [lia|].
  rewrite length_app. destruct (f a); simpl; lia.
Qed.

(** A table that is found never gives the result of a page without
table: [parse_table] returns a list of entries or raises.  The list has
at most one entry for each [tr] that the selector of the rows finds in
the table, and it is the empty list when the selector finds no row. *)
Theorem extract_at_most_one_entry_per_row (soup : PageElement)
  (table : Located) :
  find_table soup = Some table ->
  (forall lu, parse_table soup <> Ok (lu, None))
  /\ (select_tbody_tr table = [] ->
      parse_table soup
      = Ok (first_date (find_all_text (element table)), Some []))
  /\ (forall lu rows, parse_table soup = Ok (lu, Some rows) ->
      (List.length rows <= List.length (select_tbody_tr table))%nat).
Proof.
  intros F. split; [|split].
  - intros lu H. apply parse_table_Ok in H. rewrite F in H.
    destruct H as [_ [[=] _]].
  - intros Hnil. rewrite (parse_table_found _ F).
    + unfold source_rows. now rewrite Hnil.
    + rewrite Hnil. constructor.
  - intros lu rows H. apply parse_table_Ok in H. rewrite F in H.
    destruct H as [_ [[= ->] _]].
    assert (Hlen : List.length (sorted weight_g (source_rows table))
                   = List.length (source_rows table)).
    { symmetry. apply Permutation_length, sorted_Permutation. }
    rewrite Hlen. apply length_flat_map_option.
Qed.

Lemma extract_at_most_one_entry_per_row_witness :
  parse_table (page [])
  = Ok (first_date (find_all_text (bordered_table [])), Some []).
Proof.
  apply (proj1 (proj2 (@extract_at_most_one_entry_per_row (page [])
                         {| in_tbody := false; after_h1 := false;
                            element := bordered_table [] |} eq_refl))).
  reflexivity.
Defined.

(** ** The selectors of the table *)

Lemma str_eqb_eq (a b : str) : str_eqb a b = true -> a = b.
Proof.
  revert b. induction a as [|x a IH]; intros [|y b]; simpl; try discriminate.
  - reflexivity.
  - intros H. apply andb_prop in H as [H1 H2].
    apply N.eqb_eq in H1. now rewrite H1, (IH _ H2).
Qed.

Lemma has_class_matches_lambda (el : PageElement) :
  has_class (lit "table-bordered") el = true ->
  matches_class class_lambda (tag_class el) = true.
Proof.
  unfold has_class, matches_class.
  destruct (tag_class el) as [tokens|]; [|discriminate].
  intros H. apply existsb_exists in H as [t [Hin Ht]].
  apply str_eqb_eq in Ht. subst t.
  apply orb_true_iff. left. apply existsb_exists.
  exists (lit "table-bordered"). split; [exact Hin | reflexivity].
Qed.

(** The selector with the heading finds no table that the other selector
would not find: the page has no table exactly when [find] finds none.
The table that is found, by either selector, is a [table] tag of the
page that has a [class] attribute on which the function given to [find]
holds. *)
Theorem find_table_fallback_decides (soup : PageElement) :
  (find_table soup = None <-> find_ (lit "table") class_lambda soup = None)
  /\ (forall table,
        find_table soup = Some table ->
        In table (located_descendants false soup)
        /\ is_tag (lit "table") (element table) = true
        /\ tag_class (element table) <> None
        /\ matches_class class_lambda (tag_class (element table)) = true).
Proof.
  assert (Hsel : forall t, select_one_h1_sibling_table soup = Some t ->
                 In t (located_descendants false soup)
                 /\ is_tag (lit "table") (element t) = true
                 /\ matches_class class_lambda (tag_class (element t)) = true).
  { intros t H. apply find_some in H as [Hin H].
    apply andb_prop in H as [H _]. apply andb_prop in H as [H1 H2].
    split; [exact Hin|]. split; [exact H1|].
    now apply has_class_matches_lambda. }
  assert (Hfind : forall t, find_ (lit "table") class_lambda soup = Some t ->
                 In t (located_descendants false soup)
                 /\ is_tag (lit "table") (element t) = true
                 /\ matches_class class_lambda (tag_class (element t)) = true).
  { intros t H. apply find_some in H as [Hin H].
    apply andb_prop in H as [H1 H2]. now repeat split. }
  split.
  - rewrite find_table_None. split; [now intros [_ H]|].
    intros H. split; [|exact H].
    destruct (select_one_h1_sibling_table soup) as [t|] eqn:S; [|reflexivity].
    destruct (Hsel t eq_refl) as [Hin [H1 H2]].
    pose proof (find_none _ _ H t Hin) as Hno. cbv beta in Hno.
    rewrite H1, H2 in Hno. discriminate.
  - intros table F. unfold find_table in F.
    assert (H : In table (located_descendants false soup)
                /\ is_tag (lit "table") (element table) = true
                /\ matches_class class_lambda (tag_class (element table)) = true).
    { destruct (select_one_h1_sibling_table soup) as [t|] eqn:S.
      - injection F as <-. now apply Hsel.
      - now apply Hfind. }
    destruct H as [Hin [H1 H2]]. repeat split; try assumption.
    intros Hc. rewrite Hc in H2. discriminate.
Qed.

(** ** The date of the table *)

Lemma take_digits_spec (n : nat) (s d r : str) :
  Re.take_digits n s = Some (d, r) ->
  s = d ++ r /\ List.length d = n /\ Forall (fun c => isdecimal c = true) d.
Proof.
  revert s d r. induction n as [|n IH]; intros s d r; simpl.
  - intros [= <- <-]. repeat split. constructor.
  - destruct s as [|c s]; [discriminate|].
    destruct (isdecimal c) eqn:D; [|discriminate].
    destruct (Re.take_digits n s) as [[d' r']|] eqn:T; [|discriminate].
    intros [= <- <-]. destruct (IH _ _ _ T) as [-> [Hl Hd]].
    repeat split; [simpl; now rewrite Hl | now constructor].
Qed.

Lemma take_dot_spec (s r : str) : Re.take_dot s = Some r -> s = Re.dot :: r.
Proof.
  destruct s as [|c s]; simpl; [discriminate|].
  unfold char_eqb. destruct (N.eqb_spec c Re.dot) as [->|_]; [|discriminate].
  now intros [= <-].
Qed.

Lemma match_date_with_spec (n1 n2 : nat) (s m : str) :
  Re.match_date_with n1 n2 s = Some m ->
  exists d mo y post,
    m = d ++ [Re.dot] ++ mo ++ [Re.dot] ++ y
    /\ s = m ++ post
    /\ List.length d = n1 /\ List.length mo = n2 /\ List.length y = 4%nat
    /\ Forall (fun c => isdecimal c = true) (d ++ mo ++ y).
Proof.
  unfold Re.match_date_with.
  destruct (Re.take_digits n1 s) as [[d r1]|] eqn:T1; [|discriminate].
  destruct (Re.take_dot r1) as [r2|] eqn:D1; [|discriminate].
  destruct (Re.take_digits n2 r2) as [[mo r3]|] eqn:T2; [|discriminate].
  destruct (Re.take_dot r3) as [r4|] eqn:D2; [|discriminate].
  destruct (Re.take_digits 4 r4) as [[y post]|] eqn:T3; [|discriminate].
  intros [= <-].
  apply take_digits_spec in T1 as [-> [L1 F1]].
  apply take_digits_spec in T2 as [-> [L2 F2]].
  apply take_digits_spec in T3 as [-> [L3 F3]].
  apply take_dot_spec in D1 as ->. apply take_dot_spec in D2 as ->.
  exists d, mo, y, post. split; [reflexivity|].
  split; [repeat (rewrite <- app_assoc; cbn [app]); reflexivity|].
  repeat split; try assumption.
  apply Forall_app. split; [exact F1|]. apply Forall_app. now split.
Qed.

Lemma match_date_spec (s m : str) :
  Re.match_date s = Some m ->
  date_shaped m /\ exists post, s = m ++ post.
Proof.
  unfold Re.match_date, date_shaped. intros H.
  assert (Hn : exists n1 n2, (1 <= n1 <= 2)%nat /\ (1 <= n2 <= 2)%nat
                             /\ Re.match_date_with n1 n2 s = Some m).
  { destruct (Re.match_date_with 2 2 s) eqn:E1;
      [exists 2%nat, 2%nat; repeat split; try lia; congruence|].
    destruct (Re.match_date_with 2 1 s) eqn:E2;
      [exists 2%nat, 1%nat; repeat split; try lia; congruence|].
    destruct (Re.match_date_with 1 2 s) eqn:E3;
      [exists 1%nat, 2%nat; repeat split; try lia; congruence|].
    exists 1%nat, 1%nat. repeat split; try lia; congruence. }
  destruct Hn as [n1 [n2 [H1 [H2 Hm]]]].
  apply match_date_with_spec in Hm
    as [d [mo [y [post [-> [-> [L1 [L2 [L3 Hd]]]]]]]]].
  split; [|now exists post].
  exists d, mo, y. repeat split; try assumption; lia.
Qed.

Lemma search_date_spec (s m : str) :
  Re.search_date s = Some m -> date_shaped m /\ occurs_in m s.
Proof.
  induction s as [|c s IH]; cbn [Re.search_date].
  - destruct (Re.match_date []) eqn:E; [|discriminate].
    intros [= <-]. apply match_date_spec in E as [Hs [post Hpost]].
    split; [exact Hs|]. exists [], post. exact Hpost.
  - destruct (Re.match_date (c :: s)) eqn:E.
    + intros [= <-]. apply match_date_spec in E as [Hs [post Hpost]].
      split; [exact Hs|]. exists [], post. exact Hpost.
    + intros H. destruct (IH H) as [Hs [pre [post ->]]].
      split; [exact Hs|]. now exists (c :: pre), post.
Qed.

Lemma first_date_spec (els : list str) :
  match first_date els with
  | None => Forall (fun el => Re.search_date el = None) els
  | Some m =>
      exists before el after,
        els = before ++ el :: after
        /\ Forall (fun el => Re.search_date el = None) before
        /\ Re.search_date el = Some m
  end.
Proof.
  induction els as [|el els IH]; cbn [first_date]; [constructor|].
  destruct (Re.search_date el) as [m|] eqn:E.
  - exists [], el, els.
    split; [reflexivity | split; [apply Forall_nil | exact E]].
  - destruct (first_date els) as [m|].
    + destruct IH as [before [el' [after [-> [Hb He]]]]].
      exists (el :: before), el', after.
      split; [reflexivity | split; [now constructor | exact He]].
    + now constructor.
Qed.

(** The date that [parse_table] returns is a piece of one string of the
table and has the shape D.M.YYYY, of eight to ten characters; nothing
else is asked of it, neither of the day nor of the month. *)
Theorem last_updated_shape (soup : PageElement) (lu : str)
  (rows : option (list PriceEntry)) :
  parse_table soup = Ok (Some lu, rows) ->
  date_shaped lu
  /\ (8 <= List.length lu <= 10)%nat
  /\ exists table el,
       find_table soup = Some table
       /\ In el (find_all_text (element table))
       /\ occurs_in lu el.
Proof.
  intros H. apply parse_table_Ok in H.
  destruct (find_table soup) as [table|] eqn:F; [|destruct H as [[=] _]].
  destruct H as [Hlu _]. symmetry in Hlu.
  pose proof (first_date_spec (find_all_text (element table))) as Hf.
  rewrite Hlu in Hf. destruct Hf as [before [el [after [Hels [_ He]]]]].
  apply search_date_spec in He as [Hs Hocc].
  split; [exact Hs|]. split.
  - destruct Hs as [d [mo [y [-> [Hd [Hmo [Hy _]]]]]]].
    rewrite !length_app. cbn [List.length]. lia.
  - exists table, el. split; [reflexivity|]. split; [|exact Hocc].
    rewrite Hels. apply in_or_app. right. now left.
Qed.

Lemma last_updated_shape_witness :
  date_shaped (lit "1.1.2020") /\ (8 <= 8 <= 10)%nat.
Proof.
  destruct (@last_updated_shape dated_page (lit "1.1.2020") (Some [entry_5g]))
    as [H1 [H2 _]].
  - vm_compute. reflexivity.
  - split; [exact H1 | exact H2].
Defined.

(** The date comes from the first string of the table, in the order of
the page, in which the pattern is found, comments included; there is no
date exactly when no string of the table has one. *)
Theorem last_updated_first_string (soup : PageElement) (lu : option str)
  (rows : list PriceEntry) :
  parse_table soup = Ok (lu, Some rows) ->
  exists table,
    find_table soup = Some table
    /\ match lu with
       | None =>
           Forall (fun el => Re.search_date el = None)
                  (find_all_text (element table))
       | Some m =>
           exists before el after,
             find_all_text (element table) = before ++ el :: after
             /\ Forall (fun el => Re.search_date el = None) before
             /\ Re.search_date el = Some m
       end.
Proof.
  intros H. apply parse_table_Ok in H.
  destruct (find_table soup) as [table|] eqn:F; [|destruct H as [_ [=]]].
  destruct H as [Hlu _].
  exists table. split; [reflexivity|]. rewrite Hlu.
  apply first_date_spec.
Qed.

Lemma last_updated_first_string_witness :
  exists table,
    find_table dated_page = Some table
    /\ exists before el after,
         find_all_text (element table) = before ++ el :: after
         /\ Forall (fun el => Re.search_date el = None) before
         /\ Re.search_date el = Some (lit "1.1.2020").
Proof.
  apply (@last_updated_first_string dated_page (Some (lit "1.1.2020"))
           [entry_5g]).
  vm_compute. reflexivity.
Defined.

(** ** The cache file, read *)

(** [load_cache] and [cache_status] read the file and leave it as it is,
be it expired or unreadable; [load_cache] returns an entry exactly when
[cache_status] reports the file as valid, and nothing exactly when the
report is missing, error or expired. *)
Theorem cache_status_agrees_with_load (now : datetime) (w : World) :
  cache_file (snd (load_cache now w)) = cache_file w
  /\ snd (cache_status now w) = w
  /\ (forall data,
        fst (load_cache now w) = Ok (Some data)
        <-> cache_file w = Some (Json data)
            /\ fst (cache_status now w) = Ok (valid (data_expires_at data)))
  /\ (fst (load_cache now w) = Ok None
      <-> fst (cache_status now w) = Ok missing
          \/ fst (cache_status now w) = Ok (error CacheFileUnreadable)
          \/ exists t, fst (cache_status now w) = Ok (expired t)).
Proof.
  rewrite load_cache_eq, cache_status_eq. cbn [fst snd log cache_file].
  split; [reflexivity|]. split; [reflexivity|].
  destruct (cache_file w) as [[|d]|]; cbn [usable].
  - split.
    + intros data. split; [discriminate | intros [[=] _]].
    + split; [auto | reflexivity].
  - destruct (Z.ltb_spec now (data_expires_at d)) as [Hlt|Hge];
      destruct (Z.geb_spec now (data_expires_at d)) as [Hge'|Hlt']; try lia.
    + split.
      * intros data. split.
        -- intros [= <-]. now split.
        -- intros [[= <-] _]. reflexivity.
      * split; [discriminate|].
        intros [H|[H|[t H]]]; discriminate.
    + split.
      * intros data. split; [discriminate | intros [_ [=]]].
      * split; [|reflexivity]. intros _. right. right.
        now exists (data_expires_at d).
  - split.
    + intros data. split; [discriminate | intros [[=] _]].
    + split; [auto | reflexivity].
Qed.

(** ** The fetch *)

Lemma search_date_nonempty (s m : str) : Re.search_date s = Some m -> m <> [].
Proof.
  intros H. apply search_date_spec in H as [[d [mo [y [-> [Hd _]]]]] _].
  destruct d; [simpl in Hd; lia | discriminate].
Qed.

Lemma or_None_first_date (els : list str) :
  or_None (first_date els) = first_date els.
Proof.
  pose proof (first_date_spec els) as H.
  destruct (first_date els) as [m|]; [|reflexivity].
  destruct H as [before [el [after [_ [_ H]]]]].
  apply search_date_nonempty in H. destruct m; [congruence | reflexivity].
Qed.

Lemma fetch_and_parse_result (CBU_URL : str) (out : result Response)
  (now : datetime) (w : World) :
  fst (fetch_and_parse CBU_URL out now w)
  = match out with
    | Raise ex => Raise ex
    | Ok resp =>
        if negb (status_code resp =? 200)%Z
        then Raise (HTTPException 502 (SourceReturnedStatus (status_code resp)))
        else
          match parse_table (text resp) with
          | Raise ex => Raise ex
          | Ok (_, None) => Raise (HTTPException 500 CouldNotFindGoldTable)
          | Ok (lu, Some rows) =>
              Ok {| source := CBU_URL;
                    last_updated := or_None lu;
                    retrieved_at := now;
                    prices := rows |}
          end
    end.
Proof.
  unfold fetch_and_parse, mbind, requests_get, lift, raise, ret.
  destruct out as [resp|ex]; [|reflexivity].
  destruct (negb (status_code resp =? 200)%Z); [reflexivity|].
  destruct (parse_table (text resp)) as [[lu [rows|]]|e]; reflexivity.
Qed.

Lemma count_requests_log (ev : Event) (w : World) :
  count_requests (log ev w)
  = (count_requests w + match ev with EvRequest => 1 | _ => 0 end)%nat.
Proof.
  unfold count_requests, log. cbn [trace].
  rewrite filter_app, length_app. destruct ev; simpl; lia.
Qed.

Lemma count_requests_write (f : option FileContent) (w : World) :
  count_requests (write_file f w) = count_requests w.
Proof. reflexivity. Qed.



(** ** The responses of the handler *)

Lemma usable_Some (now : datetime) (file : option FileContent)
  (data : CacheData) :
  usable now file = Some data ->
  file = Some (Json data) /\ (now < data_expires_at data)%Z.
Proof.
  destruct file as [[|d]|]; try discriminate. cbn [usable].
  destruct (Z.ltb_spec now (data_expires_at d)); [|discriminate].
  intros [= <-]. now split.
Qed.

(** A response never carries an entry that has expired for the block
that answered: [expires_at] is after the clock of the first block for a
hit, after the clock of the [except] block for a stale answer, and 24
hours after the clock of the save for a stored one.  The [warning] is
there exactly for a stale answer, and the [expires_at] key of the cached
data exactly for an answer that comes from the cache. *)
Theorem response_is_consistent (CBU_URL : str) (force : bool) (env : Env)
  (w : World) (resp : JSONResponse) :
  fst (get_gold_prices CBU_URL force env w) = Ok resp ->
  (warning resp <> None <-> status (cache resp) = stale)
  /\ (content_expires_at resp = None <-> status (cache resp) = stored)
  /\ match status (cache resp) with
     | hit => (now_load env < expires_at (cache resp))%Z
     | stale => (now_after env < expires_at (cache resp))%Z
     | stored => expires_at (cache resp) = (now_after env + CACHE_TTL)%Z
     end.
Proof.
  rewrite get_gold_prices_eq. cbv zeta.
  destruct (usable (now_load env) _) as [data|] eqn:U.
  - cbn [fst]. intros [= <-]. cbn.
    split; [split; [congruence | discriminate]|].
    split; [split; discriminate|].
    now apply usable_Some in U.
  - destruct (fst (fetch_and_parse _ _ _ _)) as [result|e].
    + rewrite store_eq. cbn [fst]. intros [= <-]. cbn.
      split; [split; [congruence | discriminate]|]. now split.
    + rewrite fallback_eq. cbn [fst].
      destruct (usable (now_after env) _) as [data|] eqn:U2; [|discriminate].
      intros [= <-]. cbn.
      split; [split; [reflexivity | discriminate]|].
      split; [split; discriminate|].
      now apply usable_Some in U2.
Qed.

Lemma response_is_consistent_witness :
  (1000 + CACHE_TTL)%Z = (now_after (success_env 1000%Z) + CACHE_TTL)%Z.
Proof.
  destruct (@response_is_consistent CBU_URL_default false (success_env 1000%Z)
              (world_with None)
              (stored_response
                 {| source := CBU_URL_default; last_updated := None;
                    retrieved_at := 1000%Z; prices := [entry_5g] |}
                 (1000 + CACHE_TTL)%Z))
    as [_ [_ H]].
  - vm_compute. reflexivity.
  - exact H.
Defined.

(** A stored response is the page of the source: the source answered
200, its page has the table, the content has the entries of the table
in order, the URL and the clock of the fetch, and the file holds the
same content with the same [expires_at]. *)
Theorem stored_response_is_the_page (CBU_URL : str) (force : bool)
  (env : Env) (w : World) (resp : JSONResponse) :
  fst (get_gold_prices CBU_URL force env w) = Ok resp ->
  status (cache resp) = stored ->
  exists r table,
    outcome env = Ok r
    /\ status_code r = 200%Z
    /\ find_table (text r) = Some table
    /\ content resp
       = {| source := CBU_URL;
            last_updated := first_date (find_all_text (element table));
            retrieved_at := now_fetch env;
            prices := sorted weight_g (source_rows table) |}
    /\ cache_file (snd (get_gold_prices CBU_URL force env w))
       = Some (Json {| data_result := content resp;
                       data_expires_at := expires_at (cache resp) |}).
Proof.
  rewrite get_gold_prices_eq. cbv zeta.
  destruct (usable (now_load env) _) as [data|].
  - cbn [fst]. intros [= <-]. discriminate.
  - rewrite fetch_and_parse_result.
    destruct (outcome env) as [r|ex].
    + destruct (Z.eqb_spec (status_code r) 200) as [H200|Hn200]; cbn [negb].
      * destruct (parse_table (text r)) as [[lu [rows|]]|ex] eqn:P.
        -- rewrite store_eq. cbn [fst snd]. intros [= <-] _.
           apply parse_table_Ok in P.
           destruct (find_table (text r)) as [table|] eqn:F;
             [|destruct P as [_ [=]]].
           destruct P as [-> [[= ->] _]].
           exists r, table. cbn [content stored_response].
           rewrite or_None_first_date.
           repeat split; try assumption; reflexivity.
        -- rewrite fallback_eq. cbn [fst].
           destruct (usable (now_after env) _); [|discriminate].
           intros [= <-]. discriminate.
        -- rewrite fallback_eq. cbn [fst].
           destruct (usable (now_after env) _); [|discriminate].
           intros [= <-]. discriminate.
      * rewrite fallback_eq. cbn [fst].
        destruct (usable (now_after env) _); [|discriminate].
        intros [= <-]. discriminate.
    + rewrite fallback_eq. cbn [fst].
      destruct (usable (now_after env) _); [|discriminate].
      intros [= <-]. discriminate.
Qed.

Lemma stored_response_is_the_page_witness :
  exists r table,
    outcome (success_env 1000%Z) = Ok r
    /\ status_code r = 200%Z
    /\ find_table (text r) = Some table
    /\ prices (sorted_snapshot table) = [entry_5g].
Proof.
  destruct (@stored_response_is_the_page CBU_URL_default true
              (success_env 1000%Z) (world_with (Some Unreadable))
              (stored_response
                 {| source := CBU_URL_default; last_updated := None;
                    retrieved_at := 1000%Z; prices := [entry_5g] |}
                 (1000 + CACHE_TTL)%Z))
    as [r [table [H1 [H2 [H3 [H4 _]]]]]].
  - vm_compute. reflexivity.
  - reflexivity.
  - exists r, table. repeat split; try assumption.
    unfold sorted_snapshot. cbn [prices].
    apply (f_equal prices) in H4. cbn [content stored_response prices] in H4.
    now symmetry.
Defined.

(** The handler asks the source at most once, and not at all for a hit:
there is no second attempt after a failure. *)
Theorem handler_requests_at_most_once (CBU_URL : str) (force : bool)
  (env : Env) (w : World) :
  let r := get_gold_prices CBU_URL force env w in
  count_requests (snd r)
  = (count_requests w
     + match response_status (fst r) with
       | Some hit => 0
       | _ => 1
       end)%nat.
Proof.
  cbv zeta. rewrite get_gold_prices_eq. cbv zeta.
  assert (Hw1 : count_requests (if force then write_file None (log EvClear w)
                                else w) = count_requests w).
  { destruct force; [|reflexivity].
    rewrite count_requests_write, count_requests_log. lia. }
  destruct (usable (now_load env) _) as [data|].
  - cbn [fst snd response_status cached_response cache status].
    rewrite count_requests_log, Hw1. lia.
  - destruct (fst (fetch_and_parse _ _ _ _)) as [result|e].
    + rewrite store_eq. cbn [fst snd response_status stored_response cache status].
      rewrite count_requests_write, count_requests_log, count_requests_write.
      rewrite !count_requests_log, Hw1. lia.
    + rewrite fallback_eq. cbn [fst snd].
      rewrite count_requests_log, count_requests_write.
      rewrite !count_requests_log, Hw1.
      destruct (usable (now_after env) _); cbn; lia.
Qed.

(** A forced refresh whose fetch fails loses the cache: the entry is
removed before the source is asked, so the request ends with the hard
error and without a cache file, however fresh the entry was (no other
request writing the file in between). *)
Theorem force_with_failed_fetch_loses_cache (CBU_URL : str) (env : Env)
  (w : World) (e : exn) :
  (forall file, others env file = file) ->
  outcome env = Raise e ->
  get_gold_prices CBU_URL true env w
  = (Raise (hard_error e),
     {| cache_file := None;
        trace := trace w ++ [EvClear; EvLoad; EvRequest; EvLoad] |}).
Proof.
  intros Hid Hout. rewrite get_gold_prices_eq. cbv zeta.
  cbn [write_file log cache_file trace usable].
  rewrite fetch_and_parse_result, Hout, fallback_eq.
  cbn [write_file log cache_file trace]. rewrite Hid. cbn [usable].
  unfold log, write_file. cbn [cache_file trace].
  now rewrite <- !app_assoc.
Qed.

Lemma force_with_failed_fetch_loses_cache_witness :
  get_gold_prices CBU_URL_default true
    {| now_load := 1000%Z; outcome := Raise timeout; now_fetch := 1000%Z;
       others := fun file => file; now_after := 9000%Z |}
    (world_with (Some (Json cached_5g)))
  = (Raise (hard_error timeout),
     {| cache_file := None;
        trace := [] ++ [EvClear; EvLoad; EvRequest; EvLoad] |}).
Proof.
  apply (@force_with_failed_fetch_loses_cache CBU_URL_default
           {| now_load := 1000%Z; outcome := Raise timeout;
              now_fetch := 1000%Z; others := fun file => file;
              now_after := 9000%Z |}
           (world_with (Some (Json cached_5g))) timeout).
  - reflexivity.
  - reflexivity.
Defined.

(** After a stored response, every request without [force] that loads
the file before the [expires_at] of the response is a hit with the same
content and the same [expires_at]; it asks nothing of the source and
leaves the file as it is. *)
Theorem stored_then_hit (CBU_URL : str) (force : bool) (env env' : Env)
  (w : World) (resp : JSONResponse) :
  fst (get_gold_prices CBU_URL force env w) = Ok resp ->
  status (cache resp) = stored ->
  (now_load env' < expires_at (cache resp))%Z ->
  let w' := snd (get_gold_prices CBU_URL force env w) in
  get_gold_prices CBU_URL false env' w'
  = (Ok {| content := content resp;
           content_expires_at := Some (expires_at (cache resp));
           warning := None;
           cache := {| status := hit; expires_at := expires_at (cache resp) |} |},
     log EvLoad w').
Proof.
  intros Hr Hst Hlt. cbv zeta.
  assert (Hfile : cache_file (snd (get_gold_prices CBU_URL force env w))
                  = Some (Json {| data_result := content resp;
                                  data_expires_at := expires_at (cache resp) |})).
  { revert Hr Hst. rewrite get_gold_prices_eq. cbv zeta.
    destruct (usable (now_load env) _) as [data|].
    - cbn [fst]. intros [= <-]. discriminate.
    - destruct (fst (fetch_and_parse _ _ _ _)) as [result|e].
      + rewrite store_eq. cbn [fst snd]. now intros [= <-] _.
      + rewrite fallback_eq. cbn [fst].
        destruct (usable (now_after env) _); [|discriminate].
        intros [= <-]. discriminate. }
  rewrite (get_gold_prices_eq CBU_URL false env'). cbv zeta.
  rewrite Hfile. cbn [usable data_expires_at].
  destruct (Z.ltb_spec (now_load env') (expires_at (cache resp))); [|lia].
  reflexivity.
Qed.

Lemma stored_then_hit_witness :
  response_status
    (fst (get_gold_prices CBU_URL_default false (success_env 2000%Z)
            (snd (get_gold_prices CBU_URL_default false (success_env 1000%Z)
                    (world_with None)))))
  = Some hit.
Proof.
  rewrite (@stored_then_hit CBU_URL_default false (success_env 1000%Z)
             (success_env 2000%Z) (world_with None)
             (stored_response
                {| source := CBU_URL_default; last_updated := None;
                   retrieved_at := 1000%Z; prices := [entry_5g] |}
                (1000 + CACHE_TTL)%Z)).
  - reflexivity.
  - vm_compute. reflexivity.
  - reflexivity.
  - vm_compute. reflexivity.
Defined.



(** ** The order of the entries *)

Section SortedUnique.
Variable A : Type.
Variable key : A -> Z.

Lemma StronglySorted_unique (l1 l2 : list A) :
  StronglySorted (fun a b => (key a <= key b)%Z) l1 ->
  StronglySorted (fun a b => (key a <= key b)%Z) l2 ->
  Permutation l1 l2 ->
  NoDup (List.map key l1) ->
  l1 = l2.
Proof.
  revert l2. induction l1 as [|x l1 IH]; intros l2 S1 S2 P N.
  - now apply Permutation_nil in P.
  - destruct l2 as [|y l2].
    + apply Permutation_sym, Permutation_nil in P. discriminate.
    + inversion S1 as [|? ? S1' Hx]; subst.
      inversion S2 as [|? ? S2' Hy]; subst.
      rewrite Forall_forall in Hx, Hy.
      cbn [List.map] in N. inversion N as [|? ? Hnotin N']; subst.
      assert (E : x = y).
      { assert (Hin1 : In x (y :: l2))
          by (apply (Permutation_in _ P); now left).
        assert (Hin2 : In y (x :: l1))
          by (apply (Permutation_in _ (Permutation_sym P)); now left).
        destruct Hin1 as [E|Hin1]; [now symmetry|].
        destruct Hin2 as [E|Hin2]; [exact E|].
        exfalso. apply Hnotin.
        replace (key x) with (key y)
          by (pose proof (Hx y Hin2); pose proof (Hy x Hin1); lia).
        now apply in_map. }
      subst y. f_equal.
      apply IH; try assumption. now apply Permutation_cons_inv in P.
Qed.

Lemma sorted_of_Permutation (a b : list A) :
  Permutation a b -> NoDup (List.map key a) -> sorted key a = sorted key b.
Proof.
  intros P N. apply StronglySorted_unique.
  - apply sorted_StronglySorted.
  - apply sorted_StronglySorted.
  - rewrite <- (sorted_Permutation key a), <- (sorted_Permutation key b).
    exact P.
  - apply (Permutation_NoDup (l := List.map key a)); [|exact N].
    apply Permutation_map, sorted_Permutation.
Qed.

End SortedUnique.

(** When the rows of a table give entries of different weights, the
sorted entries do not depend on the order of the rows in the page. *)
Theorem entries_do_not_depend_on_row_order (trs trs' : list PageElement)
  (rows rows' : list PriceEntry) :
  Permutation trs trs' ->
  parse_rows trs [] = Ok rows ->
  parse_rows trs' [] = Ok rows' ->
  NoDup (List.map weight_g rows) ->
  sorted weight_g rows = sorted weight_g rows'.
Proof.
  intros P H H' N.
  apply parse_rows_Ok in H as [_ ->]. apply parse_rows_Ok in H' as [_ ->].
  cbn [app] in *.
  apply sorted_of_Permutation; [|exact N].
  now apply Permutation_flat_map.
Qed.

Lemma entries_do_not_depend_on_row_order_witness :
  sorted weight_g
    [{| weight_g := 10; price_uzs := 7000; price_str := lit "7 000" |}; entry_5g]
  = sorted weight_g
      [entry_5g;
       {| weight_g := 10; price_uzs := 7000; price_str := lit "7 000" |}].
Proof.
  apply (@entries_do_not_depend_on_row_order
           [row "10 g" "7 000"; data_row] [data_row; row "10 g" "7 000"]).
  - apply perm_swap.
  - reflexivity.
  - reflexivity.
  - repeat constructor; simpl; intuition discriminate.
Defined.

(** ** The lock is always released *)

Section Release.
Variable CBU_URL : str.

Lemma advance_holding_runs (pc : Pc) (now : datetime) (out : result Response)
  (w : World) :
  holding pc = true ->
  acquire pc = None
  /\ exists m pc' w',
       advance CBU_URL pc now out = Some m /\ m w = (Ok pc', w').
Proof.
  destruct pc as [force|force| |e|e|res|res|r]; try discriminate; intros _;
    (split; [reflexivity|]); cbn [advance]; unfold try_except_m, mbind.
  - destruct (check_cache force now w) as [[[data|]|e] w1] eqn:C;
      do 3 eexists; (split; [reflexivity|]); cbv beta; rewrite C; reflexivity.
  - destruct (fallback e now w) as [[r|e'] w1] eqn:C;
      do 3 eexists; (split; [reflexivity|]); cbv beta; rewrite C; reflexivity.
  - destruct (store res now w) as [[r|e'] w1] eqn:C;
      do 3 eexists; (split; [reflexivity|]); cbv beta; rewrite C; reflexivity.
Qed.

End Release.

(** However the requests have been scheduled, the request that holds
the lock can run its block to the end, whatever the clock and the file,
and the lock is free after it: no block keeps the lock, and no request
waits for ever. *)
Theorem lock_is_released (CBU_URL : str) (forces : nat -> bool)
  (file : option FileContent) (schedule : list Move) (s : Server) (i : nat)
  (now : datetime) (out : result Response) :
  run CBU_URL schedule (start forces file) = Some s ->
  cache_lock s = Some i ->
  exists s',
    step CBU_URL i now out s = Some s'
    /\ cache_lock s' = None
    /\ holding (pcs s' i) = false.
Proof.
  intros R L.
  pose proof (run_lock_invariant _ _ (start_lock_invariant forces file) R) as Inv.
  apply Inv in L.
  destruct (advance_holding_runs CBU_URL (pcs s i) now out (shared s) L)
    as [A [m [pc' [w' [Adv Run]]]]].
  unfold step. rewrite A, Adv, Run, L.
  eexists. split; [reflexivity|]. cbn [cache_lock pcs].
  split; [reflexivity|].
  rewrite update_same.
  exact (@advance_released CBU_URL (pcs s i) pc' now out m (shared s) w'
           Adv Run).
Qed.

Lemma lock_is_released_witness :
  exists s',
    step CBU_URL_default 0 10%Z page_response
      {| cache_lock := Some 0%nat; shared := world_with None;
         pcs := update (fun _ => Entry false) 0 (Checking false) |}
    = Some s'
    /\ cache_lock s' = None
    /\ holding (pcs s' 0%nat) = false.
Proof.
  apply (@lock_is_released CBU_URL_default no_force None [move 0 10%Z]).
  - reflexivity.
  - reflexivity.
Defined.

(** ** The properties above on sample pages *)

Lemma row_skipped_iff_witness :
  exists e, [entry_5g] = [] ++ [e].
Proof.
  apply (proj1 (proj2 (row_skipped_iff data_row [])) [entry_5g]).
  - reflexivity.
  - unfold skipped. cbn. intros [H|H]; discriminate.
Defined.

Lemma find_table_fallback_decides_witness :
  is_tag (lit "table") (bordered_table [data_row; header_row]) = true
  /\ tag_class (bordered_table [data_row; header_row]) <> None.
Proof.
  destruct (proj2 (find_table_fallback_decides scenario_A_page)
              {| in_tbody := false; after_h1 := true;
                 element := bordered_table [data_row; header_row] |}
              eq_refl)
    as [_ [H1 [H2 _]]].
  split; [exact H1 | exact H2].
Defined.
